(** * Search in Zotero: the result-fusion pipeline of [Contents/Scripts/default.py]

    A shallow embedding of the Python action script and the properties of
    its fusion, fallback, snapshot and path-resolution code.

    Conventions of the embedding.
    - A Python [str] is the [string] of the bytes of its UTF-8 encoding. The
      whitespace removed by [str.strip] is that of ASCII (code points 9-13
      and 28-32) and the line breaks of [str.splitlines] are those of ASCII
      (10-13 and 28-30); Python also counts a few characters beyond ASCII
      (such as U+0085, U+00A0, U+2028), which stay in place here.
    - A [float] score is the rational number it denotes: the program only
      compares scores ([>] and the sort key), it never computes with them.
    - A Python [int] is a [Z].
    - [dict] used for its insertion order is an association list; the
      metadata mapping, which is only looked up, is a [gmap].
    - Code that raises returns an [outcome]; code that touches the temporary
      files or the database threads a [state] holding the existing temporary
      files and the trace of the effects performed so far.
    - Everything the script consumes from outside (the search package, the
      helper script, SQLite, the file system, [pathlib], [urllib]) is a field
      of the [world] the run takes place in. The queries of [pathlib]
      ([exists], [is_dir], [is_file], [iterdir]) answer or raise: they return
      [False] for a missing path and let any other [OSError] of the operating
      system through (a file name that is too long, a directory that may not
      be searched), and the script calls them outside of any [try]. *)

From Stdlib Require Import Ascii String ZArith QArith Sorted.
From stdpp Require Import base strings list gmap pretty.

Set Warnings "-clear-no-such-hyp".

Local Open Scope string_scope.
Local Open Scope list_scope.

(** ** Strings *)

Module Str.

Definition is_space (c : ascii) : bool :=
  let n := nat_of_ascii c in
  ((9 <=? n)%nat && (n <=? 13)%nat) || ((28 <=? n)%nat && (n <=? 32)%nat).

(** [str.lstrip()] *)
Fixpoint lstrip (s : string) : string :=
  match s with
  | EmptyString => EmptyString
  | String c s' => if is_space c then lstrip s' else s
  end.

(** [str.rstrip()] *)
Fixpoint rstrip (s : string) : string :=
  match s with
  | EmptyString => EmptyString
  | String c s' =>
      match rstrip s' with
      | EmptyString => if is_space c then EmptyString else String c EmptyString
      | r => String c r
      end
  end.

(** [str.strip()] *)
Definition strip (s : string) : string := rstrip (lstrip s).

(** Truth value of a string: [if s:] *)
Definition nonempty (s : string) : bool :=
  match s with EmptyString => false | _ => true end.

(** [s.startswith(p)] *)
Fixpoint startswith (p s : string) : bool :=
  match p, s with
  | EmptyString, _ => true
  | String _ _, EmptyString => false
  | String c p', String c' s' => Ascii.eqb c c' && startswith p' s'
  end.

(** [s[n:]] for [0 <= n] *)
Fixpoint drop (n : nat) (s : string) : string :=
  match n, s with
  | O, _ => s
  | S n', String _ s' => drop n' s'
  | S _, EmptyString => EmptyString
  end.

(** [s.lstrip(c)] *)
Fixpoint lstrip_char (c : ascii) (s : string) : string :=
  match s with
  | EmptyString => EmptyString
  | String c' s' => if Ascii.eqb c' c then lstrip_char c s' else s
  end.

(** [sep.join(parts)] *)
Fixpoint join (sep : string) (parts : list string) : string :=
  match parts with
  | [] => ""
  | [p] => p
  | p :: rest => p +:+ sep +:+ join sep rest
  end.

(** [a or b] on strings *)
Definition or_else (a b : string) : string := if nonempty a then a else b.

End Str.

(** ** Similarity hits *)

(** The attributes the script reads with [getattr(result, name, default)]. *)
Record hit := Hit {
  source_path : string;
  doc_id : string;
  title : string;
  fusion_score : Q;
}.

(** [str(getattr(result, "source_path", "")).strip()] *)
Definition hit_source (h : hit) : string := Str.strip (source_path h).

(** [a > b] on scores *)
Definition score_gt (a b : Q) : bool := negb (Qle_bool a b).

(** ** Insertion-ordered dictionaries *)

Module Dict.
Section Dict.
Context {V : Type}.

Definition t := list (string * V).

(** [d.get(k)] *)
Fixpoint get (d : t) (k : string) : option V :=
  match d with
  | [] => None
  | (k', v) :: d' => if String.eqb k' k then Some v else get d' k
  end.

(** [d[k] = v]: an existing key keeps its position, a new one goes last. *)
Fixpoint set (d : t) (k : string) (v : V) : t :=
  match d with
  | [] => [(k, v)]
  | (k', v') :: d' =>
      if String.eqb k' k then (k', v) :: d' else (k', v') :: set d' k v
  end.

(** [d.values()] *)
Definition values (d : t) : list V := map snd d.

(** [d.keys()] *)
Definition keys (d : t) : list string := map fst d.
End Dict.
Arguments t : clear implicits.
End Dict.

(** ** Deduplication, ranking and truncation ([_build_semantic_items], lines 461-476) *)

(** One iteration of [for result in raw_results]. *)
Definition dedup_step (best : Dict.t hit) (result : hit) : Dict.t hit :=
  let sp := hit_source result in
  if Str.nonempty sp then
    match Dict.get best sp with
    | None => Dict.set best sp result
    | Some current =>
        if score_gt (fusion_score result) (fusion_score current)
        then Dict.set best sp result
        else best
    end
  else best.

Definition best_by_source_from (best : Dict.t hit) (raw_results : list hit) : Dict.t hit :=
  fold_left dedup_step raw_results best.

Definition best_by_source (raw_results : list hit) : Dict.t hit :=
  best_by_source_from [] raw_results.

(** [sorted(xs, key=..., reverse=True)]: equal keys keep their order. *)
Fixpoint insert_desc {A : Type} (key : A -> Q) (x : A) (l : list A) : list A :=
  match l with
  | [] => [x]
  | y :: l' =>
      if score_gt (key y) (key x) then y :: insert_desc key x l' else x :: y :: l'
  end.

Definition sorted_desc {A : Type} (key : A -> Q) (l : list A) : list A :=
  foldr (insert_desc key) [] l.

(** [xs[:n]] for a Python integer [n]: a negative [n] counts from the end. *)
Definition slice_to {A : Type} (n : Z) (l : list A) : list A :=
  if (0 <=? n)%Z then take (Z.to_nat n) l
  else take (Z.to_nat (Z.of_nat (length l) + n)) l.

(** The hits that survive deduplication: [best_by_source.values()]. *)
Definition deduplicated (raw_results : list hit) : list hit :=
  Dict.values (best_by_source raw_results).

(** [unique_results] for a given [SEMANTIC_MAX_DOCS]. *)
Definition unique_results (SEMANTIC_MAX_DOCS : Z) (raw_results : list hit) : list hit :=
  slice_to SEMANTIC_MAX_DOCS (sorted_desc fusion_score (deduplicated raw_results)).

(** ** Exceptions and results *)

Inductive exn :=
| ValueError (msg : string)
| RuntimeError (msg : string)
| SqliteError (msg : string)     (* sqlite3.Error and its subclasses *)
| OSError (msg : string)
| OtherError (msg : string).     (* any other Exception *)

(** [str(exc)] *)
Definition exn_str (e : exn) : string :=
  match e with
  | ValueError m | RuntimeError m | SqliteError m | OSError m | OtherError m => m
  end.

Inductive outcome (A : Type) :=
| Ok (a : A)
| Raise (e : exn).
Arguments Ok {A} a.
Arguments Raise {A} e.

(** Sequencing of computations that may raise. *)
Definition and_then {A B} (r : outcome A) (k : A -> outcome B) : outcome B :=
  match r with
  | Ok a => k a
  | Raise e => Raise e
  end.

Declare Scope py_scope.
Delimit Scope py_scope with py.
Notation "x <-- r ;; k" := (and_then r (fun x => k))
  (at level 100, r at next level, right associativity) : py_scope.
Local Open Scope py_scope.

(** ** [pathlib]: pure POSIX paths *)

Module Path.

(** [s.split(c)] *)
Fixpoint split (c : ascii) (s : string) : list string :=
  match s with
  | EmptyString => [EmptyString]
  | String c' s' =>
      if Ascii.eqb c' c then EmptyString :: split c s'
      else match split c s' with
           | p :: ps => String c' p :: ps
           | [] => [String c' EmptyString]
           end
  end.

(** A parsed path: its root ([""], ["/"] or ["//"]) and its components. *)
Record t := Mk { root : string; parts : list string }.

Definition is_part (p : string) : bool :=
  Str.nonempty p && negb (String.eqb p ".").

Definition root_of (s : string) : string :=
  if Str.startswith "///" s then "/"
  else if Str.startswith "//" s then "//"
  else if Str.startswith "/" s then "/"
  else "".

(** [Path(s)] *)
Definition of_string (s : string) : t :=
  {| root := root_of s; parts := filter (fun p => Is_true (is_part p)) (split "/" s) |}.

(** [str(p)] *)
Definition to_string (p : t) : string :=
  match root p, parts p with
  | EmptyString, [] => "."
  | r, ps => r +:+ Str.join "/" ps
  end.

(** [p / s] *)
Definition join (p : t) (s : string) : t :=
  let q := of_string s in
  if Str.nonempty (root q) then q
  else {| root := root p; parts := parts p ++ parts q |}.

(** [p.name] *)
Definition name (p : t) : string := List.last (parts p) "".

(** [s.rfind(".")], counted from the end of the string: the number of
    characters after the last dot. *)
Fixpoint after_last_dot (s : string) : option nat :=
  match s with
  | EmptyString => None
  | String c s' =>
      match after_last_dot s' with
      | Some n => Some n
      | None => if Ascii.eqb c "." then Some (String.length s') else None
      end
  end.

(** The index [i] of the last dot when [0 < i < len(name) - 1]. *)
Definition suffix_index (nm : string) : option nat :=
  match after_last_dot nm with
  | Some after =>
      let i := (String.length nm - 1 - after)%nat in
      if (0 <? i)%nat && (0 <? after)%nat then Some i else None
  | None => None
  end.

(** [p.stem] *)
Definition stem (p : t) : string :=
  match suffix_index (name p) with
  | Some i => String.substring 0 i (name p)
  | None => name p
  end.

(** [p.suffix] *)
Definition suffix (p : t) : string :=
  match suffix_index (name p) with
  | Some i => Str.drop i (name p)
  | None => ""
  end.

End Path.

(** [str.lower()] on ASCII letters *)
Definition lower_char (c : ascii) : ascii :=
  let n := nat_of_ascii c in
  if (65 <=? n)%nat && (n <=? 90)%nat then ascii_of_nat (n + 32) else c.

Fixpoint lower (s : string) : string :=
  match s with
  | EmptyString => EmptyString
  | String c s' => String (lower_char c) (lower s')
  end.

(** ** Display items *)

Module Item.
(** The keys of the dictionaries handed to the launcher. *)
Record t := Mk {
  title : string;
  subtitle : string;
  badge : option string;
  alwaysShowsSubtitle : bool;
  label : option string;
  path : option string;
  quickLookURL : option string;
  url : option string;
}.

(** [item.get("badge") == "Error"] *)
Definition is_error (i : t) : bool :=
  match badge i with
  | Some b => String.eqb b "Error"
  | None => false
  end.
End Item.

Definition _item_error (title subtitle : string) : Item.t :=
  {| Item.title := title; Item.subtitle := subtitle; Item.badge := Some "Error";
     Item.alwaysShowsSubtitle := false; Item.label := None; Item.path := None;
     Item.quickLookURL := None; Item.url := None |}.

Definition _item_info (title subtitle : string) : Item.t :=
  {| Item.title := title; Item.subtitle := subtitle; Item.badge := None;
     Item.alwaysShowsSubtitle := false; Item.label := None; Item.path := None;
     Item.quickLookURL := None; Item.url := None |}.

(** ** Sidecar metadata ([_parse_md_meta]) *)

Module MdMeta.
(** The dictionary [output]: each of its three keys is present or absent. *)
Record t := Mk {
  attachment_key : option string;
  source_pdf : option string;
  zotero_link : option string;
}.

Definition empty : t :=
  {| attachment_key := None; source_pdf := None; zotero_link := None |}.

(** [len(output) == 3] *)
Definition complete (o : t) : bool :=
  match attachment_key o, source_pdf o, zotero_link o with
  | Some _, Some _, Some _ => true
  | _, _, _ => false
  end.

(** [output.get(field, "")] *)
Definition get (field : t -> option string) (o : t) : string := default "" (field o).
End MdMeta.

(** The separators of [str.splitlines] among the ASCII characters. *)
Definition is_linebreak (c : ascii) : bool :=
  let n := nat_of_ascii c in
  ((10 <=? n)%nat && (n <=? 13)%nat) || ((28 <=? n)%nat && (n <=? 30)%nat).

(** [text.splitlines()] *)
Fixpoint splitlines (s : string) : list string :=
  match s with
  | EmptyString => []
  | String c s' =>
      if is_linebreak c then
        match s' with
        | String c2 s'' =>
            if Ascii.eqb c "013" && Ascii.eqb c2 "010"
            then EmptyString :: splitlines s''
            else EmptyString :: splitlines s'
        | EmptyString => [EmptyString]
        end
      else
        match splitlines s' with
        | l :: ls => String c l :: ls
        | [] => [String c EmptyString]
        end
  end.

(** [re.compile("^" + label + r"\s*(.+)\s*$").match(line.strip())] followed
    by [match.group(1).strip()]. On a stripped line without a line feed (the
    lines come from [splitlines]) the pattern matches exactly when something
    follows the label, and the stripped group is the stripped remainder. *)
Definition match_label (label line : string) : option string :=
  let l := Str.strip line in
  if Str.startswith label l then
    let rest := Str.drop (String.length label) l in
    if Str.nonempty rest then Some (Str.strip rest) else None
  else None.

(** The body of [for line in lines[:40]] up to the test of [len(output)]. *)
Definition scan_line (output : MdMeta.t) (line : string) : MdMeta.t :=
  let o1 :=
    match match_label "- Attachment Key:" line with
    | Some v => {| MdMeta.attachment_key := Some v;
                   MdMeta.source_pdf := MdMeta.source_pdf output;
                   MdMeta.zotero_link := MdMeta.zotero_link output |}
    | None => output
    end in
  let o2 :=
    match match_label "- Source PDF:" line with
    | Some v => {| MdMeta.attachment_key := MdMeta.attachment_key o1;
                   MdMeta.source_pdf := Some v;
                   MdMeta.zotero_link := MdMeta.zotero_link o1 |}
    | None => o1
    end in
  match match_label "- Zotero Link:" line with
  | Some v => {| MdMeta.attachment_key := MdMeta.attachment_key o2;
                 MdMeta.source_pdf := MdMeta.source_pdf o2;
                 MdMeta.zotero_link := Some v |}
  | None => o2
  end.

(** The loop over the lines, with its [break]. *)
Fixpoint scan_lines (output : MdMeta.t) (lines : list string) : MdMeta.t :=
  match lines with
  | [] => output
  | line :: rest =>
      let o := scan_line output line in
      if MdMeta.complete o then o else scan_lines o rest
  end.

(** ** Configuration: the module-level globals the functions read *)

Record config := Config {
  SEMSEARCH_PROJECT : string;
  SEM_DB_PATH : string;
  SEM_FAISS_PATH : string;
  USE_LOCAL_EMBEDDING : bool;
  SEMANTIC_PREFIX : string;
  SEMANTIC_MAX_DOCS : Z;
  ZOTERO_DB_SRC : string;
  ZOTERO_STORAGE_DIR : string;
  FZF_HELPER : string;
}.

(** ** The database rows and the joined records *)

Module Row.
(** One row of the batched query. *)
Record t := Mk {
  attachment_key : string;
  parent_title : string;
  authors : string;
  date : string;
  publication : string;
  raw_path : string;
}.
End Row.

Module Meta.
(** The value stored per attachment key by [_load_attachment_meta]. *)
Record t := Mk {
  parent_title : string;
  authors : string;
  date : string;
  publication : string;
  pdf_path : string;
}.

(** [meta.get(field, "")] where [meta = meta_by_key.get(key, {})] *)
Definition get (field : t -> string) (meta : option t) : string :=
  match meta with
  | Some m => field m
  | None => ""
  end.
End Meta.

(** ** The world a run takes place in *)

(** [subprocess.CompletedProcess] *)
Record proc := Proc { returncode : Z; stdout : string; stderr : string }.

(** What [json.loads] returns, as far as the script looks at it: an array of
    the helper script's items, which are JSON objects, or anything else. *)
Inductive json :=
| JArray (items : list Item.t)
| JOther.

Record world := World {
  (** [_load_config()] *)
  load_config : outcome config;
  (** [Path(p).exists()], [is_dir()], [is_file()]: the answer, or the
      [OSError] that [stat] lets through *)
  exists_ : string -> outcome bool;
  is_dir : string -> outcome bool;
  is_file : string -> outcome bool;
  (** [Path(p).iterdir()]: the names of the entries, or the [OSError] of
      the listing *)
  iterdir : string -> outcome (list string);
  (** [Path(p).read_text(encoding="utf-8")] *)
  read_text : string -> outcome string;
  (** [urllib.parse.unquote] *)
  unquote : string -> string;
  (** [os.getenv("OPENROUTER_API_KEY", "")] *)
  getenv_api_key : string;
  (** [Path.home()] *)
  home : string;
  (** [from semsearch.pipeline import search]: the exception it raises, if any *)
  import_semsearch : option exn;
  (** [search(query=..., api_key=..., ...)] *)
  search : string -> option string -> outcome (list hit);
  (** [subprocess.run(cmd, ...)] *)
  run_helper : list string -> outcome proc;
  (** [json.loads]; [None] is [json.JSONDecodeError] *)
  json_loads : string -> option json;
  (** [tempfile.mkstemp(prefix="zotero_", suffix=".sqlite")] *)
  mkstemp : string;
  (** connect, connect, [backup], [commit]: the message of the
      [sqlite3.Error] raised, if any *)
  sqlite_backup : string -> string -> option string;
  (** [shutil.copy2]: the message of the [OSError] raised, if any *)
  copy2 : string -> string -> option string;
  (** [sqlite3.connect(path)]: the [sqlite3.Error] raised, if any *)
  sqlite_connect : string -> option string;
  (** [conn.execute(sql, keys).fetchall()] on the database at a path *)
  sqlite_fetchall : string -> list string -> outcome (list Row.t);
  (** [f"{score:.4f}"] *)
  format_score : Q -> string;
}.

(** ** State, effects and the monad of the stateful code *)

Inductive event :=
| EvMkstemp (tmp : string)
| EvBackup (src dst : string)
| EvCopy2 (src dst : string)
| EvUnlink (p : string)
| EvConnect (p : string)
| EvFetchall (p : string) (keys : list string)
| EvClose (p : string)
| EvRunHelper (cmd : list string)
| EvLoadMeta (attachment_keys : list string)
| EvEmit (items : list Item.t).

(** The temporary files that exist and the effects performed so far. *)
Record state := State { files : gset string; trace : list event }.

Definition M (A : Type) : Type := state -> outcome A * state.

Definition ret {A} (a : A) : M A := fun st => (Ok a, st).

Definition raise {A} (e : exn) : M A := fun st => (Raise e, st).

Definition bind {A B} (m : M A) (k : A -> M B) : M B :=
  fun st =>
    match m st with
    | (Ok a, st') => k a st'
    | (Raise e, st') => (Raise e, st')
    end.

Notation "x <- m ;; k" := (bind m (fun x => k))
  (at level 100, m at next level, right associativity) : py_scope.
Notation "m ;;; k" := (bind m (fun _ => k))
  (at level 100, right associativity) : py_scope.

(** [try: body finally: fin] *)
Definition try_finally {A} (body : M A) (fin : M unit) : M A :=
  fun st =>
    match body st with
    | (r, st1) =>
        match fin st1 with
        | (Ok _, st2) => (r, st2)
        | (Raise e, st2) => (Raise e, st2)
        end
    end.

(** A result computed without effects, inside the monad. *)
Definition lift {A} (r : outcome A) : M A := fun st => (r, st).

Definition log (e : event) : M unit :=
  fun st => (Ok tt, {| files := files st; trace := trace st ++ [e] |}).

Definition create_file (p : string) : M unit :=
  fun st => (Ok tt, {| files := {[p]} ∪ files st; trace := trace st |}).

Definition file_exists (p : string) : M bool :=
  fun st => (Ok (bool_decide (p ∈ files st)), st).

(** [p.unlink(missing_ok=True)] *)
Definition unlink (p : string) : M unit :=
  fun st => (Ok tt, {| files := files st ∖ {[p]}; trace := trace st ++ [EvUnlink p] |}).

(** ** [_create_db_snapshot] *)

Definition snapshot_error_prefix : string := "無法建立 Zotero 資料庫快照：".

Definition _create_db_snapshot (w : world) (src_path : string) : M string :=
  let tmp_path := mkstemp w in
  create_file tmp_path ;;;
  log (EvMkstemp tmp_path) ;;;
  log (EvBackup src_path tmp_path) ;;;
  match sqlite_backup w src_path tmp_path with
  | None => ret tmp_path
  | Some _ =>
      log (EvCopy2 src_path tmp_path) ;;;
      match copy2 w src_path tmp_path with
      | None => ret tmp_path
      | Some exc =>
          present <- file_exists tmp_path ;;
          (if present then unlink tmp_path else ret tt) ;;;
          raise (RuntimeError (snapshot_error_prefix +:+ exc))
      end
  end.

(** ** [_resolve_pdf_path] *)

(** Order of two paths: the lexicographic order of their components. *)
Fixpoint parts_ltb (a b : list string) : bool :=
  match a, b with
  | [], [] => false
  | [], _ :: _ => true
  | _ :: _, [] => false
  | x :: a', y :: b' =>
      match String.compare x y with
      | Lt => true
      | Gt => false
      | Eq => parts_ltb a' b'
      end
  end.

Definition cparts (p : Path.t) : list string :=
  (if Str.nonempty (Path.root p) then [Path.root p] else []) ++ Path.parts p.

Definition path_ltb (p q : Path.t) : bool := parts_ltb (cparts p) (cparts q).

(** [sorted(paths)] *)
Fixpoint insert_path (x : Path.t) (l : list Path.t) : list Path.t :=
  match l with
  | [] => [x]
  | y :: l' => if path_ltb y x then y :: insert_path x l' else x :: y :: l'
  end.

Definition sorted_paths (l : list Path.t) : list Path.t := foldr insert_path [] l.

(** [p.is_file() and p.suffix.lower() == ".pdf"] *)
Definition is_pdf (w : world) (p : Path.t) : outcome bool :=
  file <-- is_file w (Path.to_string p) ;;
  Ok (file && String.eqb (lower (Path.suffix p)) ".pdf").

(** The generator [(p for p in entries if ...)] as [sorted] consumes it: the
    entries are tested in order, and the first test that raises ends it. *)
Fixpoint select_pdfs (w : world) (entries : list Path.t) : outcome (list Path.t) :=
  match entries with
  | [] => Ok []
  | p :: rest =>
      keep <-- is_pdf w p ;;
      pdfs <-- select_pdfs w rest ;;
      Ok (if keep then p :: pdfs else pdfs)
  end.

(** The PDF files of a directory, sorted:
    [sorted(p for p in d.iterdir() if p.is_file() and p.suffix.lower() == ".pdf")] *)
Definition pdfs_of (w : world) (attachment_dir : Path.t) : outcome (list Path.t) :=
  names <-- iterdir w (Path.to_string attachment_dir) ;;
  pdfs <-- select_pdfs w (map (Path.join attachment_dir) names) ;;
  Ok (sorted_paths pdfs).

(** The directory scan both branches of the resolver end with. *)
Definition first_pdf (w : world) (attachment_dir : Path.t) : outcome string :=
  dir <-- is_dir w (Path.to_string attachment_dir) ;;
  if dir then
    pdfs <-- pdfs_of w attachment_dir ;;
    match pdfs with
    | p :: _ => Ok (Path.to_string p)
    | [] => Ok ""
    end
  else Ok "".

(** [re.sub(r"^file:(//)?", "", raw)] for a [raw] that starts with ["file:"] *)
Definition strip_file_scheme (raw : string) : string :=
  let rest := Str.drop 5 raw in
  if Str.startswith "//" rest then Str.drop 2 rest else rest.

(** The directory of an attachment: [ZOTERO_STORAGE_DIR / attachment_key] *)
Definition attachment_dir_of (cfg : config) (attachment_key : string) : Path.t :=
  Path.join (Path.of_string (ZOTERO_STORAGE_DIR cfg)) attachment_key.

(** The file a storage-relative raw path names: what follows ["storage:"],
    without leading slashes, under the directory of the attachment. *)
Definition stored_rel (raw : string) : string := Str.lstrip_char "/" (Str.drop 8 raw).

Definition _resolve_pdf_path (cfg : config) (w : world) (raw_path attachment_key : string)
    : outcome string :=
  let raw := Str.strip raw_path in
  if Str.startswith "storage:" raw then
    let rel := stored_rel raw in
    let attachment_dir := attachment_dir_of cfg attachment_key in
    let candidate := Path.join attachment_dir rel in
    found <-- (if Str.nonempty rel then exists_ w (Path.to_string candidate) else Ok false) ;;
    if found then Ok (Path.to_string candidate)
    else first_pdf w attachment_dir
  else if Str.startswith "file:" raw then
    let file_path := unquote w (strip_file_scheme raw) in
    if Str.nonempty file_path && negb (Str.startswith "/" file_path)
    then Ok ("/" +:+ file_path)
    else Ok file_path
  else if Str.nonempty raw then Ok raw
  else first_pdf w (attachment_dir_of cfg attachment_key).

(** ** [_load_attachment_meta] *)

(** The record stored for a row under [key], given the resolved path. *)
Definition meta_of_row (row : Row.t) (pdf_path : string) : Meta.t :=
  {| Meta.parent_title := Str.strip (Row.parent_title row);
     Meta.authors := Str.strip (Row.authors row);
     Meta.date := Str.strip (Row.date row);
     Meta.publication := Str.strip (Row.publication row);
     Meta.pdf_path := pdf_path |}.

(** One iteration of [for row in rows]. *)
Definition store_row (cfg : config) (w : world)
    (output : gmap string Meta.t) (row : Row.t) : outcome (gmap string Meta.t) :=
  let key := Str.strip (Row.attachment_key row) in
  if Str.nonempty key then
    pdf_path <-- _resolve_pdf_path cfg w (Row.raw_path row) key ;;
    Ok (<[ key := meta_of_row row pdf_path ]> output)
  else Ok output.

(** The loop [for row in rows]: the first row whose path cannot be resolved
    ends it with the exception of the resolver. *)
Fixpoint store_rows (cfg : config) (w : world)
    (output : gmap string Meta.t) (rows : list Row.t) : outcome (gmap string Meta.t) :=
  match rows with
  | [] => Ok output
  | row :: rest =>
      output' <-- store_row cfg w output row ;;
      store_rows cfg w output' rest
  end.

(** The body of the [try] block: connect to the snapshot, query it and
    build the mapping from the rows. *)
Definition query_snapshot (cfg : config) (w : world) (snapshot : string)
    (keys : list string) : M (gmap string Meta.t) :=
  log (EvConnect snapshot) ;;;
  match sqlite_connect w snapshot with
  | Some exc => raise (SqliteError exc)
  | None =>
      log (EvFetchall snapshot keys) ;;;
      rows <- lift (sqlite_fetchall w snapshot keys) ;;
      lift (store_rows cfg w ∅ rows)
  end.

(** The [finally] block: close the connection if there is one, then delete
    the snapshot. *)
Definition release_snapshot (w : world) (snapshot : string) : M unit :=
  match sqlite_connect w snapshot with
  | None => log (EvClose snapshot)
  | Some _ => ret tt
  end ;;;
  unlink snapshot.

Definition _load_attachment_meta (cfg : config) (w : world)
    (attachment_keys : list string) : M (gmap string Meta.t) :=
  let keys := List.filter Str.nonempty attachment_keys in
  match keys with
  | [] => ret ∅
  | _ =>
      snapshot <- _create_db_snapshot w (ZOTERO_DB_SRC cfg) ;;
      try_finally (query_snapshot cfg w snapshot keys) (release_snapshot w snapshot)
  end.

(** ** [_parse_md_meta] *)

Definition _parse_md_meta (w : world) (source_path : string) : outcome MdMeta.t :=
  let path := Path.to_string (Path.of_string source_path) in
  found <-- exists_ w path ;;
  if found then
    match read_text w path with
    | Ok text => Ok (scan_lines MdMeta.empty (take 40 (splitlines text)))
    | Raise (OSError _) => Ok MdMeta.empty
    | Raise e => Raise e
    end
  else Ok MdMeta.empty.

(** ** [_run_fzf_mode] *)

Definition _run_fzf_mode (cfg : config) (w : world) (fzf_query : string) : M (list Item.t) :=
  found <- lift (exists_ w (FZF_HELPER cfg)) ;;
  if found then
    let cmd := FZF_HELPER cfg :: (if Str.nonempty fzf_query then [fzf_query] else []) in
    log (EvRunHelper cmd) ;;;
    proc <- lift (run_helper w cmd) ;;
    if negb (returncode proc =? 0)%Z then
      let err :=
        Str.or_else
          (Str.strip (Str.or_else (stderr proc) (stdout proc)))
          ("exit code " +:+ pretty (returncode proc)) in
      ret [_item_error "fzf 搜尋失敗" err]
    else
      let output := Str.strip (stdout proc) in
      if Str.nonempty output then
        match json_loads w output with
        | None => ret [_item_error "fzf 回傳格式錯誤" "helper script 輸出不是合法 JSON。"]
        | Some JOther => ret [_item_error "fzf 回傳格式錯誤" "helper script 輸出不是陣列。"]
        | Some (JArray parsed) => ret parsed
        end
      else ret [_item_info "No matches" fzf_query]
  else ret [_item_error "找不到 fzf helper" ("缺少腳本：" +:+ FZF_HELPER cfg)].

(** ** [_validate_semantic_paths] *)

Definition _validate_semantic_paths (cfg : config) (w : world) : outcome (option string) :=
  project <-- exists_ w (SEMSEARCH_PROJECT cfg) ;;
  if negb project then Ok (Some "找不到 semsearch 專案資料夾。")
  else
    db <-- exists_ w (SEM_DB_PATH cfg) ;;
    if negb db then Ok (Some "找不到資料庫檔案 zotero_pdf_v1.db。")
    else
      faiss <-- exists_ w (SEM_FAISS_PATH cfg) ;;
      if negb faiss then Ok (Some "找不到索引檔案 zotero_pdf_v1.faiss。")
      else
        zotero <-- exists_ w (ZOTERO_DB_SRC cfg) ;;
        if negb zotero then Ok (Some "找不到 Zotero 資料庫 zotero.sqlite。")
        else Ok None.

(** ** Credential discovery ([_strip_quotes], [_resolve_api_key]) *)

(** [value[-1]], when there is one *)
Fixpoint last_char (s : string) : option ascii :=
  match s with
  | EmptyString => None
  | String c EmptyString => Some c
  | String _ s' => last_char s'
  end.

(** [c] is a single or a double quote *)
Definition is_quote (c : ascii) : bool := Ascii.eqb c "039" || Ascii.eqb c "034".

Definition _strip_quotes (value : string) : string :=
  match value, last_char value with
  | String c0 _, Some c1 =>
      if (2 <=? String.length value)%nat && Ascii.eqb c0 c1 && is_quote c0
      then String.substring 1 (String.length value - 2) value
      else value
  | _, _ => value
  end.

(** [re.compile(r"^\s*export\s+OPENROUTER_API_KEY\s*=\s*(.+?)\s*$").match(line)]
    followed by [match.group(1).strip()]. On a line without a line feed the
    pattern matches exactly when something follows the equals sign, and the
    stripped group is the stripped remainder of the line. *)
Definition match_export (line : string) : option string :=
  let l := Str.lstrip line in
  if Str.startswith "export" l then
    match Str.drop 6 l with
    | String c after_space =>
        if Str.is_space c then
          let l2 := Str.lstrip after_space in
          if Str.startswith "OPENROUTER_API_KEY" l2 then
            match Str.lstrip (Str.drop 18 l2) with
            | String c' r =>
                if Ascii.eqb c' "=" && Str.nonempty r then Some (Str.strip r) else None
            | EmptyString => None
            end
          else None
        else None
    | EmptyString => None
    end
  else None.

(** The loop [for line in lines] of [_resolve_api_key]: the first key that
    is neither empty nor a reference to a shell variable. *)
Fixpoint key_in_lines (lines : list string) : option string :=
  match lines with
  | [] => None
  | line :: rest =>
      match match_export line with
      | Some value =>
          let raw := _strip_quotes value in
          if negb (Str.nonempty raw) || Str.startswith "$" raw
          then key_in_lines rest
          else Some raw
      | None => key_in_lines rest
      end
  end.

(** The loop [for file_path in shell_files]. *)
Fixpoint key_in_files (w : world) (shell_files : list Path.t) : outcome string :=
  match shell_files with
  | [] => Ok ""
  | file_path :: rest =>
      found <-- exists_ w (Path.to_string file_path) ;;
      if found then
        match read_text w (Path.to_string file_path) with
        | Ok text =>
            match key_in_lines (splitlines text) with
            | Some raw => Ok raw
            | None => key_in_files w rest
            end
        | Raise (OSError _) => key_in_files w rest
        | Raise e => Raise e
        end
      else key_in_files w rest
  end.

(** [_resolve_api_key], given the value of the environment variable (the
    empty string when it is not set) and the home directory. *)
Definition _resolve_api_key (w : world) (getenv_key : string) (home : Path.t)
    : outcome string :=
  let env_key := Str.strip getenv_key in
  if Str.nonempty env_key then Ok env_key
  else
    key_in_files w
      [ Path.join home ".zshrc"; Path.join home ".zprofile"; Path.join home ".zshenv" ].

(** ** [_build_semantic_items] *)

(** [str(getattr(result, "doc_id", "")).strip()], else the stem of the
    source path: the key both loops of [_build_semantic_items] start from. *)
Definition primary_key (result : hit) : string :=
  Str.or_else (Str.strip (doc_id result)) (Path.stem (Path.of_string (hit_source result))).

(** The first loop over [unique_results]: the keys handed to the joiner. *)
Definition attachment_keys (unique : list hit) : list string :=
  List.filter Str.nonempty (map primary_key unique).

(** The identifier of a hit in the second loop, given its sidecar metadata. *)
Definition attachment_key_of (result : hit) (md_meta : MdMeta.t) : string :=
  Str.or_else (primary_key result) (Str.strip (MdMeta.get MdMeta.attachment_key md_meta)).

(** [pdf_path] of the second loop. *)
Definition pdf_path_of (meta : option Meta.t) (md_meta : MdMeta.t) : string :=
  Str.or_else (Str.strip (Meta.get Meta.pdf_path meta))
              (Str.strip (MdMeta.get MdMeta.source_pdf md_meta)).

(** [zotero_url] of the second loop. *)
Definition zotero_url_of (attachment_key : string) (md_meta : MdMeta.t) : string :=
  if Str.nonempty attachment_key
  then "zotero://open-pdf/library/items/" +:+ attachment_key
  else Str.strip (MdMeta.get MdMeta.zotero_link md_meta).

(** The two items of one hit, from its joined record and sidecar metadata. *)
Definition items_of_hit (w : world) (rank : nat) (result : hit)
    (meta : option Meta.t) (md_meta : MdMeta.t) (attachment_key : string) : list Item.t :=
  let source_path := hit_source result in
  let title :=
    Str.or_else (Str.strip (title result))
      (Str.or_else (Path.stem (Path.of_string source_path)) "(untitled)") in
  let authors := Meta.get Meta.authors meta in
  let date := Meta.get Meta.date meta in
  let publication := Meta.get Meta.publication meta in
  let paper_title := Str.or_else (Meta.get Meta.parent_title meta) title in
  let meta_text := Str.join " · " (List.filter Str.nonempty [authors; date; publication]) in
  let score_text := "score=" +:+ format_score w (fusion_score result) in
  let base_subtitle :=
    Str.join " | "
      ([paper_title; score_text] ++ (if Str.nonempty meta_text then [meta_text] else [])) in
  let pdf_path := pdf_path_of meta md_meta in
  let file_title :=
    Str.or_else
      (if Str.nonempty pdf_path then Str.strip (Path.name (Path.of_string pdf_path)) else "")
      title in
  let full_item :=
    if Str.nonempty pdf_path then
      {| Item.title := file_title;
         Item.subtitle := "Full PDF | " +:+ base_subtitle;
         Item.badge := None; Item.alwaysShowsSubtitle := true;
         Item.label := Some (pretty rank);
         Item.path := Some pdf_path; Item.quickLookURL := Some pdf_path;
         Item.url := None |}
    else
      {| Item.title := file_title;
         Item.subtitle := "Full PDF | " +:+ base_subtitle +:+ " | 找不到 PDF 路徑";
         Item.badge := None; Item.alwaysShowsSubtitle := true;
         Item.label := Some (pretty rank);
         Item.path := None; Item.quickLookURL := None; Item.url := None |} in
  let zotero_url := zotero_url_of attachment_key md_meta in
  let zotero_item :=
    if Str.nonempty zotero_url then
      {| Item.title := file_title;
         Item.subtitle := "Open in Zotero | " +:+ base_subtitle;
         Item.badge := None; Item.alwaysShowsSubtitle := true; Item.label := None;
         Item.path := None; Item.quickLookURL := None; Item.url := Some zotero_url |}
    else
      {| Item.title := file_title;
         Item.subtitle := "Open in Zotero | " +:+ base_subtitle +:+ " | 找不到 Zotero 連結";
         Item.badge := None; Item.alwaysShowsSubtitle := true; Item.label := None;
         Item.path := None; Item.quickLookURL := None; Item.url := None |} in
  [full_item; zotero_item].

(** [_parse_md_meta(source_path) if source_path else {}] *)
Definition md_meta_of (w : world) (result : hit) : outcome MdMeta.t :=
  if Str.nonempty (hit_source result) then _parse_md_meta w (hit_source result)
  else Ok MdMeta.empty.

(** The body of the second loop once the sidecar metadata is there. *)
Definition hit_items (w : world) (meta_by_key : gmap string Meta.t) (rank : nat)
    (result : hit) (md_meta : MdMeta.t) : list Item.t :=
  let attachment_key := attachment_key_of result md_meta in
  items_of_hit w rank result (meta_by_key !! attachment_key) md_meta attachment_key.

(** The second loop, [for rank, result in enumerate(unique_results, start=1)]. *)
Fixpoint build_items (w : world) (meta_by_key : gmap string Meta.t)
    (rank : nat) (unique : list hit) : outcome (list Item.t) :=
  match unique with
  | [] => Ok []
  | result :: rest =>
      match md_meta_of w result with
      | Raise e => Raise e
      | Ok md_meta =>
          match build_items w meta_by_key (S rank) rest with
          | Raise e => Raise e
          | Ok items => Ok (hit_items w meta_by_key rank result md_meta ++ items)
          end
      end
  end.

Definition search_failed_item (exc : exn) : Item.t :=
  _item_error "搜尋失敗" (exn_str exc).

Definition fallback_notice (exc : exn) : Item.t :=
  _item_info "本地語義搜尋暫時不可用，已改用本地關鍵字搜尋。" (exn_str exc).

(** The handler [except Exception as exc] around the call of [search]. *)
Definition search_failed (cfg : config) (w : world) (query : string) (exc : exn)
    : M (list Item.t) :=
  if USE_LOCAL_EMBEDDING cfg then
    fallback_items <- _run_fzf_mode cfg w query ;;
    if negb (existsb Item.is_error fallback_items)
    then ret (fallback_notice exc :: fallback_items)
    else ret [search_failed_item exc]
  else ret [search_failed_item exc].

(** What follows the [try] when [search] returned [raw_results]. *)
Definition fuse (cfg : config) (w : world) (raw_results : list hit) : M (list Item.t) :=
  match unique_results (SEMANTIC_MAX_DOCS cfg) raw_results with
  | [] => ret [_item_info "找不到符合結果" "請嘗試不同關鍵字。"]
  | unique =>
      log (EvLoadMeta (attachment_keys unique)) ;;;
      meta_by_key <- _load_attachment_meta cfg w (attachment_keys unique) ;;
      lift (build_items w meta_by_key 1 unique)
  end.

(** [api_key] after the lines 428-430: [None] with a local backend, else
    what [_resolve_api_key()] returns. *)
Definition api_key_of (cfg : config) (w : world) : outcome (option string) :=
  if USE_LOCAL_EMBEDDING cfg then Ok None
  else
    key <-- _resolve_api_key w (getenv_api_key w) (Path.of_string (home w)) ;;
    Ok (Some key).

(** [not api_key], tested with a remote backend only *)
Definition no_api_key (api_key : option string) : bool :=
  match api_key with
  | Some key => negb (Str.nonempty key)
  | None => false
  end.

Definition _build_semantic_items (cfg : config) (w : world) (query : string)
    : M (list Item.t) :=
  path_error <- lift (_validate_semantic_paths cfg w) ;;
  match path_error with
  | Some path_error => ret [_item_error "索引設定錯誤" path_error]
  | None =>
      api_key <- lift (api_key_of cfg w) ;;
      if no_api_key api_key
      then ret [_item_error "找不到 OPENROUTER_API_KEY" "請先設定 API Key，再重新搜尋。"]
      else
        match import_semsearch w with
        | Some exc => ret [_item_error "無法載入 semsearch 模組" (exn_str exc)]
        | None =>
            match search w query api_key with
            | Raise exc => search_failed cfg w query exc
            | Ok raw_results => fuse cfg w raw_results
            end
        end
  end.

(** ** [main] *)

Definition _emit (items : list Item.t) : M unit := log (EvEmit items).

(** [" ".join(part.strip() for part in sys.argv[1:] if part.strip()).strip()] *)
Definition query_of (argv : list string) : string :=
  Str.strip (Str.join " " (List.filter Str.nonempty (map Str.strip argv))).

(** [argv] is [sys.argv[1:]]. *)
Definition main (w : world) (argv : list string) : M Z :=
  match load_config w with
  | Raise (ValueError msg) => _emit [_item_error "設定檔錯誤" msg] ;;; ret 0%Z
  | Raise e => raise e
  | Ok cfg =>
      let query := query_of argv in
      if negb (Str.nonempty query) then
        _emit [_item_info "請輸入搜尋關鍵字"
                 ("一般模式=Zotero 本地關鍵字搜尋（fzf）；前綴 " +:+ SEMANTIC_PREFIX cfg
                  +:+ " 可切換為語義搜尋。")] ;;;
        ret 0%Z
      else if Str.startswith (SEMANTIC_PREFIX cfg) query then
        let query := Str.strip (Str.drop (String.length (SEMANTIC_PREFIX cfg)) query) in
        if negb (Str.nonempty query) then
          _emit [_item_info "請輸入語義搜尋關鍵字"
                   ("請在前綴 " +:+ SEMANTIC_PREFIX cfg +:+ " 後面輸入查詢內容。")] ;;;
          ret 0%Z
        else
          items <- _build_semantic_items cfg w query ;;
          _emit items ;;;
          ret 0%Z
      else
        items <- _run_fzf_mode cfg w query ;;
        _emit items ;;;
        ret 0%Z
  end.

(** The lists written to standard output during a run. *)
Definition emitted (st : state) : list (list Item.t) :=
  omap (fun e => match e with EvEmit items => Some items | _ => None end) (trace st).

(** ** The properties of the design document, as predicates *)

(** [s] is the hit of [raw_results] kept for its path: no hit with the same
    path scores higher, and those before it score strictly lower. *)
Definition first_best (key : hit -> string) (raw_results : list hit) (s : hit) : Prop :=
  ∃ l1 l2, raw_results = l1 ++ s :: l2 ∧
    (∀ h, h ∈ l1 → key h = key s → (fusion_score h < fusion_score s)%Q) ∧
    (∀ h, h ∈ l2 → key h = key s → (fusion_score h <= fusion_score s)%Q).

(** Deduplication by [key]: at most one survivor per path, each the first
    best hit of a non-empty path, and a survivor for every non-empty path. *)
Definition deduplicates (key : hit -> string) (raw_results survivors : list hit) : Prop :=
  NoDup (map key survivors) ∧
  (∀ s, s ∈ survivors → key s ≠ "" ∧ first_best key raw_results s) ∧
  (∀ h, h ∈ raw_results → key h ≠ "" → ∃ s, s ∈ survivors ∧ key s = key h).

(** What the loop over [raw_results] maintains: [best] holds, under each
    non-empty path seen so far, the first best hit of that path. *)
Record dedup_inv (best : Dict.t hit) (seen : list hit) : Prop := {
  inv_nodup : NoDup (Dict.keys best);
  inv_entry : ∀ k v, Dict.get best k = Some v →
    hit_source v = k ∧ k ≠ "" ∧ first_best hit_source seen v;
  inv_cover : ∀ h, h ∈ seen → hit_source h ≠ "" →
    is_Some (Dict.get best (hit_source h));
}.

(** Scores never increase along the list. *)
Definition nonincreasing (l : list hit) : Prop :=
  StronglySorted (fun a b => (fusion_score b <= fusion_score a)%Q) l.

Definition cap_and_order (cap : Z) (raw_results : list hit) : Prop :=
  (Z.of_nat (length (unique_results cap raw_results)) <= cap)%Z ∧
  nonincreasing (unique_results cap raw_results).

(** The call of [search] is reached and raises [exc]. *)
Definition search_raises (cfg : config) (w : world) (query : string) (exc : exn) : Prop :=
  _validate_semantic_paths cfg w = Ok None ∧
  ∃ api_key,
    api_key_of cfg w = Ok api_key ∧ no_api_key api_key = false ∧
    import_semsearch w = None ∧
    search w query api_key = Raise exc.

(** The handler of a failed search as the design document words it: with a
    local backend, an alternate output that reports an error is shown as it
    is, without the notice. *)
Definition search_failed_as_worded (cfg : config) (w : world) (query : string) (exc : exn)
    : M (list Item.t) :=
  if USE_LOCAL_EMBEDDING cfg then
    fallback_items <- _run_fzf_mode cfg w query ;;
    if negb (existsb Item.is_error fallback_items)
    then ret (fallback_notice exc :: fallback_items)
    else ret fallback_items
  else ret [search_failed_item exc].

Definition fallback_policy_as_worded (cfg : config) (w : world) (query : string)
    (st : state) : Prop :=
  ∀ exc, search_raises cfg w query exc →
    _build_semantic_items cfg w query st = search_failed_as_worded cfg w query exc st.

(** The path resolver as the design document words it: whatever the raw
    path and the key, it returns a string. *)
Definition returns_string (r : outcome string) : Prop := ∃ answer, r = Ok answer.

Definition resolver_never_raises (cfg : config) (w : world)
    (raw_path attachment_key : string) : Prop :=
  returns_string (_resolve_pdf_path cfg w raw_path attachment_key).

(** Every query of the file system answers. *)
Definition fs_answers (w : world) : Prop :=
  ∀ p, (∃ b, exists_ w p = Ok b) ∧ (∃ b, is_dir w p = Ok b) ∧
       (∃ b, is_file w p = Ok b) ∧ (∃ names, iterdir w p = Ok names).

(** Some query of the file system raises [e]. *)
Definition fs_raises (w : world) (e : exn) : Prop :=
  ∃ p, exists_ w p = Raise e ∨ is_dir w p = Raise e ∨
       is_file w p = Raise e ∨ iterdir w p = Raise e.

(** [p] is a file with the extension of a PDF. *)
Definition pdf_file (w : world) (p : Path.t) : Prop :=
  is_file w (Path.to_string p) = Ok true ∧ lower (Path.suffix p) = ".pdf".

(** [is_file] answers for the entry [name] of [dir]. *)
Definition tested (w : world) (dir : Path.t) (name : string) : Prop :=
  ∃ b, is_file w (Path.to_string (Path.join dir name)) = Ok b.

(** What the scan of an attachment directory gives: the exception of the
    first query that raises; else nothing, when the directory does not
    exist or holds no PDF file; else a PDF file of the directory that none
    of its PDF files precedes in the order of paths. *)
Inductive scans (w : world) (dir : Path.t) : outcome string -> Prop :=
| scans_dir_raises (e : exn) :
    is_dir w (Path.to_string dir) = Raise e →
    scans w dir (Raise e)
| scans_no_dir :
    is_dir w (Path.to_string dir) = Ok false →
    scans w dir (Ok "")
| scans_listing_raises (e : exn) :
    is_dir w (Path.to_string dir) = Ok true →
    iterdir w (Path.to_string dir) = Raise e →
    scans w dir (Raise e)
| scans_entry_raises (before : list string) (name : string) (after : list string) (e : exn) :
    is_dir w (Path.to_string dir) = Ok true →
    iterdir w (Path.to_string dir) = Ok (before ++ name :: after) →
    Forall (tested w dir) before →
    is_file w (Path.to_string (Path.join dir name)) = Raise e →
    scans w dir (Raise e)
| scans_no_pdf (names : list string) :
    is_dir w (Path.to_string dir) = Ok true →
    iterdir w (Path.to_string dir) = Ok names →
    Forall (tested w dir) names →
    (∀ name, name ∈ names → ¬ pdf_file w (Path.join dir name)) →
    scans w dir (Ok "")
| scans_least_pdf (names : list string) (name : string) :
    is_dir w (Path.to_string dir) = Ok true →
    iterdir w (Path.to_string dir) = Ok names →
    Forall (tested w dir) names →
    name ∈ names →
    pdf_file w (Path.join dir name) →
    (∀ other, other ∈ names → pdf_file w (Path.join dir other) →
       path_ltb (Path.join dir other) (Path.join dir name) = false) →
    scans w dir (Ok (Path.to_string (Path.join dir name))).

(** The outcomes of the path resolver, by the form of the raw path. A
    storage-relative path: the stored file when it exists, the exception of
    [exists] when it raises, and otherwise the scan of the attachment
    directory. A file URI: the decoded path, with a leading slash unless it
    is empty. Any other non-empty path: that path. An empty path: the scan
    of the attachment directory. *)
Inductive resolves (cfg : config) (w : world) (raw_path attachment_key : string)
    : outcome string -> Prop :=
| resolves_stored (candidate : Path.t) :
    Str.startswith "storage:" (Str.strip raw_path) = true →
    stored_rel (Str.strip raw_path) ≠ "" →
    candidate = Path.join (attachment_dir_of cfg attachment_key)
                  (stored_rel (Str.strip raw_path)) →
    exists_ w (Path.to_string candidate) = Ok true →
    resolves cfg w raw_path attachment_key (Ok (Path.to_string candidate))
| resolves_stored_raises (candidate : Path.t) (e : exn) :
    Str.startswith "storage:" (Str.strip raw_path) = true →
    stored_rel (Str.strip raw_path) ≠ "" →
    candidate = Path.join (attachment_dir_of cfg attachment_key)
                  (stored_rel (Str.strip raw_path)) →
    exists_ w (Path.to_string candidate) = Raise e →
    resolves cfg w raw_path attachment_key (Raise e)
| resolves_stored_missing (r : outcome string) :
    Str.startswith "storage:" (Str.strip raw_path) = true →
    stored_rel (Str.strip raw_path) = "" ∨
    exists_ w (Path.to_string
                 (Path.join (attachment_dir_of cfg attachment_key)
                    (stored_rel (Str.strip raw_path)))) = Ok false →
    scans w (attachment_dir_of cfg attachment_key) r →
    resolves cfg w raw_path attachment_key r
| resolves_uri (decoded : string) :
    Str.startswith "storage:" (Str.strip raw_path) = false →
    Str.startswith "file:" (Str.strip raw_path) = true →
    decoded = unquote w (strip_file_scheme (Str.strip raw_path)) →
    resolves cfg w raw_path attachment_key
      (Ok (if Str.nonempty decoded && negb (Str.startswith "/" decoded)
           then "/" +:+ decoded else decoded))
| resolves_bare :
    Str.startswith "storage:" (Str.strip raw_path) = false →
    Str.startswith "file:" (Str.strip raw_path) = false →
    Str.strip raw_path ≠ "" →
    resolves cfg w raw_path attachment_key (Ok (Str.strip raw_path))
| resolves_empty (r : outcome string) :
    Str.strip raw_path = "" →
    scans w (attachment_dir_of cfg attachment_key) r →
    resolves cfg w raw_path attachment_key r.

(** The first non-empty string of a list, the empty string if there is none. *)
Definition first_nonempty (candidates : list string) : string :=
  default "" (head (List.filter Str.nonempty candidates)).

(** The identifier of a hit as the design document words it: the first
    non-empty of its [docId], the stem of its [sourcePath] and the sidecar's
    attachment key. *)
Definition identifier_as_worded (h : hit) (md_meta : MdMeta.t) : string :=
  first_nonempty
    [ doc_id h;
      Path.stem (Path.of_string (source_path h));
      MdMeta.get MdMeta.attachment_key md_meta ].

Definition identifiers_as_worded (unique : list hit) : Prop :=
  ∀ h md_meta, h ∈ unique → attachment_key_of h md_meta = identifier_as_worded h md_meta.

(** The argument of every call of the metadata joiner in a trace. *)
Definition load_meta_calls (evs : list event) : list (list string) :=
  omap (fun e => match e with EvLoadMeta keys => Some keys | _ => None end) evs.

(** The effects of the snapshot and of the query on it. *)
Definition db_event (e : event) : Prop :=
  match e with
  | EvMkstemp _ | EvBackup _ _ | EvCopy2 _ _ | EvUnlink _
  | EvConnect _ | EvFetchall _ _ | EvClose _ => True
  | EvRunHelper _ | EvLoadMeta _ | EvEmit _ => False
  end.

(** A hit with a non-empty joined record takes nothing from its sidecar
    file: the design document's condition for the use of the sidecar. *)
Definition sidecar_only_without_join (w : world) (meta_by_key : gmap string Meta.t)
    (rank : nat) (h : hit) : Prop :=
  ∀ md_meta, md_meta_of w h = Ok md_meta →
    is_Some (meta_by_key !! attachment_key_of h md_meta) →
    hit_items w meta_by_key rank h md_meta = hit_items w meta_by_key rank h MdMeta.empty.

(** The PDF path the joiner's mapping holds for a hit, empty when the hit
    has no joined record. *)
Definition joined_pdf_path (meta_by_key : gmap string Meta.t) (h : hit)
    (md_meta : MdMeta.t) : string :=
  Str.strip (Meta.get Meta.pdf_path (meta_by_key !! attachment_key_of h md_meta)).

(** What a hit can take from its sidecar metadata, field by field: the
    attachment key when neither its [docId] nor its path gives an
    identifier, the source when the joiner gave no PDF path for it, the link
    when it has no identifier at all. *)
Definition sidecar_share (meta_by_key : gmap string Meta.t) (h : hit)
    (md_meta : MdMeta.t) : MdMeta.t :=
  {| MdMeta.attachment_key :=
       if Str.nonempty (primary_key h) then None
       else MdMeta.attachment_key md_meta;
     MdMeta.source_pdf :=
       if Str.nonempty (joined_pdf_path meta_by_key h md_meta) then None
       else MdMeta.source_pdf md_meta;
     MdMeta.zotero_link :=
       if Str.nonempty (attachment_key_of h md_meta) then None
       else MdMeta.zotero_link md_meta |}.

(** The two items of the [i]-th of the results [unique], among [items]. *)
Definition items_at (items : list Item.t) (i : nat) : list Item.t :=
  take 2 (drop (2 * i) items).

(** [_parse_md_meta] on the lines of a file that was read. *)
Definition parse_lines (lines : list string) : MdMeta.t :=
  scan_lines MdMeta.empty (take 40 lines).

(** The call of [search] is reached and returns [raw_results]. *)
Definition search_returns (cfg : config) (w : world) (query : string)
    (raw_results : list hit) : Prop :=
  _validate_semantic_paths cfg w = Ok None ∧
  ∃ api_key,
    api_key_of cfg w = Ok api_key ∧ no_api_key api_key = false ∧
    import_semsearch w = None ∧
    search w query api_key = Ok raw_results.

(** ** Concrete inputs *)

(** Two hits whose paths differ by a trailing space. *)
Definition hits_trailing_space : list hit :=
  [ Hit "/a/x.md" "" "T" 0.5; Hit "/a/x.md " "" "T" 0.8 ].

(** Three hits with three different paths. *)
Definition hits_three : list hit :=
  [ Hit "/a/x.md" "K1" "X" 0.5; Hit "/a/y.md" "K2" "Y" 0.8; Hit "/a/z.md" "K3" "Z" 0.7 ].

Definition config_local : config :=
  {| SEMSEARCH_PROJECT := "/proj"; SEM_DB_PATH := "/proj/idx.db";
     SEM_FAISS_PATH := "/proj/idx.faiss"; USE_LOCAL_EMBEDDING := true;
     SEMANTIC_PREFIX := "`"; SEMANTIC_MAX_DOCS := 8;
     ZOTERO_DB_SRC := "/z/zotero.sqlite"; ZOTERO_STORAGE_DIR := "/z/storage";
     FZF_HELPER := "/action/Scripts/default.sh" |}.

Definition config_remote : config :=
  {| SEMSEARCH_PROJECT := "/proj"; SEM_DB_PATH := "/proj/idx.db";
     SEM_FAISS_PATH := "/proj/idx.faiss"; USE_LOCAL_EMBEDDING := false;
     SEMANTIC_PREFIX := "`"; SEMANTIC_MAX_DOCS := 8;
     ZOTERO_DB_SRC := "/z/zotero.sqlite"; ZOTERO_STORAGE_DIR := "/z/storage";
     FZF_HELPER := "/action/Scripts/default.sh" |}.

(** A world in which the configured files, the helper script and the
    indexed documents exist and nothing exists under the storage directory;
    what the search, the helper, the two snapshot methods, the query and the
    reading of a document do is left to the arguments. *)
Definition world_with (cfg : config) (found : outcome (list hit)) (helper : outcome proc)
    (parsed : option json) (backup copy : option string)
    (rows : outcome (list Row.t)) (text : outcome string) : world :=
  {| load_config := Ok cfg;
     exists_ := fun p => Ok (negb (Str.startswith "/z/storage" p));
     is_dir := fun _ => Ok false;
     is_file := fun _ => Ok false;
     iterdir := fun _ => Ok [];
     read_text := fun _ => text;
     unquote := fun s => s;
     getenv_api_key := "sk-or-key";
     home := "/Users/justin";
     import_semsearch := None;
     search := fun _ _ => found;
     run_helper := fun _ => helper;
     json_loads := fun _ => parsed;
     mkstemp := "/tmp/zotero_8f3k2a.sqlite";
     sqlite_backup := fun _ _ => backup;
     copy2 := fun _ _ => copy;
     sqlite_connect := fun _ => None;
     sqlite_fetchall := fun _ _ => rows;
     format_score := fun _ => "0.9100" |}.

Definition state_empty : state := {| files := ∅; trace := [] |}.

(** The search raises and the helper script exits with status 1. *)
Definition world_both_fail : world :=
  world_with config_local (Raise (OtherError "connection refused"))
    (Ok (Proc 1 "" "fzf: command not found")) None None None (Ok []) (Ok "").

(** The search raises and the helper script prints one result. *)
Definition world_fallback_ok : world :=
  world_with config_local (Raise (OtherError "connection refused"))
    (Ok (Proc 0 "[{...}]" "")) (Some (JArray [_item_info "paper.pdf" "Doe 2020"]))
    None None (Ok []) (Ok "").

(** Both snapshot methods fail. *)
Definition world_no_snapshot : world :=
  world_with config_local (Ok [Hit "/idx/K1.md" "K1" "Paper" 0.91])
    (Ok (Proc 0 "" "")) None
    (Some "unable to open database file") (Some "[Errno 13] Permission denied")
    (Ok []) (Ok "").

(** The backup fails and the copy succeeds; the query then raises. *)
Definition world_query_fails : world :=
  world_with config_local (Ok [Hit "/idx/K1.md" "K1" "Paper" 0.91])
    (Ok (Proc 0 "" "")) None
    (Some "database is locked") None
    (Raise (SqliteError "no such table: itemAttachments")) (Ok "").

(** A hit whose [docId] is two spaces. *)
Definition hit_blank_doc_id : hit := Hit "/idx/paper.md" "  " "Paper" 0.91.

(** The hit [K1] is found, its attachment has a parent item but no file in
    the storage directory, and the indexed document names its source. *)
Definition hit_K1 : hit := Hit "/idx/K1.md" "K1" "Paper" 0.91.

Definition world_pdf_from_sidecar : world :=
  world_with config_local (Ok [hit_K1]) (Ok (Proc 0 "" "")) None None None
    (Ok [Row.Mk "K1" "Paper One" "Doe J" "2020" "Journal" "storage:paper.pdf"])
    (Ok "- Attachment Key: K1
- Source PDF: /pdfs/paper.pdf
- Zotero Link: zotero://select/library/items/K1").

Definition meta_K1 : gmap string Meta.t :=
  {[ "K1" := {| Meta.parent_title := "Paper One"; Meta.authors := "Doe J";
                Meta.date := "2020"; Meta.publication := "Journal";
                Meta.pdf_path := "" |} ]}.

(** The helper script prints an empty JSON array. *)
Definition world_empty_array : world :=
  world_with config_local (Ok []) (Ok (Proc 0 "[]" "")) (Some (JArray []))
    None None (Ok []) (Ok "").

(** A file name of 260 bytes, more than a file system accepts (255). *)
Definition long_name : string :=
  String.concat "" (repeat "aaaaaaaaaaaaaaaa" 16) +:+ ".pdf".

(** A component of the path [p] is longer than 255 bytes. *)
Definition name_too_long (p : string) : bool :=
  existsb (fun part => (255 <? String.length part)%nat) (Path.split "/" p).

(** [stat] on a file system that holds the configured files and nothing
    under the storage directory: a path with a component that is too long
    is refused with [ENAMETOOLONG], an error [exists] does not catch. *)
Definition stat_name_limit (p : string) : outcome bool :=
  if name_too_long p then Raise (OSError "[Errno 63] File name too long")
  else Ok (negb (Str.startswith "/z/storage" p)).

(** The database holds an attachment whose stored file name is too long. *)
Definition world_name_limit : world :=
  {| load_config := Ok config_local;
     exists_ := stat_name_limit;
     is_dir := fun _ => Ok false;
     is_file := fun _ => Ok false;
     iterdir := fun _ => Ok [];
     read_text := fun _ => Ok "";
     unquote := fun s => s;
     getenv_api_key := "";
     home := "/Users/justin";
     import_semsearch := None;
     search := fun _ _ => Ok [Hit "/idx/K1.md" "K1" "Paper" 0.91];
     run_helper := fun _ => Ok (Proc 0 "" "");
     json_loads := fun _ => None;
     mkstemp := "/tmp/zotero_8f3k2a.sqlite";
     sqlite_backup := fun _ _ => None;
     copy2 := fun _ _ => None;
     sqlite_connect := fun _ => None;
     sqlite_fetchall := fun _ _ =>
       Ok [Row.Mk "K1" "Paper One" "Doe J" "2020" "Journal" ("storage:" +:+ long_name)];
     format_score := fun _ => "0.9100" |}.

(** ** Reading the configuration ([_require_table] ... [_load_config]) *)

(** The values of a table of the parsed TOML document, as far as the script
    tells them apart: strings, integers, booleans and anything else. *)
Inductive toml_value :=
| TString (s : string)
| TInteger (n : Z)
| TBool (b : bool)
| TOther.

(** The values of the root table: a table or anything else. *)
Inductive toml_item :=
| TTable (entries : list (string * toml_value))
| TNoTable.

(** [data.get(key)] *)
Fixpoint dict_get {V : Type} (data : list (string * V)) (key : string) : option V :=
  match data with
  | [] => None
  | (k, v) :: rest => if String.eqb k key then Some v else dict_get rest key
  end.

Definition _require_table (data : list (string * toml_item)) (key : string)
    : outcome (list (string * toml_value)) :=
  match dict_get data key with
  | Some (TTable value) => Ok value
  | _ => Raise (ValueError ("設定檔格式錯誤：缺少 [" +:+ key +:+ "] 區塊"))
  end.

Definition _require_str (data : list (string * toml_value)) (key : string) : outcome string :=
  match dict_get data key with
  | Some (TString value) =>
      if Str.nonempty (Str.strip value) then Ok (Str.strip value)
      else Raise (ValueError ("設定檔格式錯誤：" +:+ key +:+ " 必須是非空字串"))
  | _ => Raise (ValueError ("設定檔格式錯誤：" +:+ key +:+ " 必須是非空字串"))
  end.

Definition _require_int (data : list (string * toml_value)) (key : string) : outcome Z :=
  match dict_get data key with
  | Some (TInteger value) => Ok value
  | _ => Raise (ValueError ("設定檔格式錯誤：" +:+ key +:+ " 必須是整數"))
  end.

Definition _require_bool (data : list (string * toml_value)) (key : string) : outcome bool :=
  match dict_get data key with
  | Some (TBool value) => Ok value
  | _ => Raise (ValueError ("設定檔格式錯誤：" +:+ key +:+ " 必須是布林值"))
  end.

(** What [tomllib.load] does with the configuration file. *)
Inductive toml_load :=
| Loaded (data : list (string * toml_item))
| LoadOSError (msg : string)
| LoadDecodeError (msg : string).

(** The dictionary [_load_config] returns. *)
Record settings := Settings {
  action_title : string;
  semsearch_project : string;
  db_path : string;
  faiss_path : string;
  zotero_db_path : string;
  zotero_storage_dir : string;
  use_local_embedding : bool;
  embedding_model : string;
  semantic_prefix : string;
  top_k : Z;
  semantic_max_docs : Z;
  fzf_enable : bool;
  fzf_max_results : Z;
  fzf_max_candidates : Z;
}.

(** [_load_config], given whether the file exists, what [tomllib.load]
    does with it, and [_expand_path] on a stripped, non-empty string. The
    root of a document that [tomllib.load] returns is always a table, so the
    test of the root never fails. *)
Definition _load_config (config_path : string) (config_exists : bool)
    (load : toml_load) (_expand_path : string -> string) : outcome settings :=
  if negb config_exists then Raise (ValueError ("找不到設定檔: " +:+ config_path))
  else
    match load with
    | LoadOSError exc | LoadDecodeError exc =>
        Raise (ValueError ("讀取設定檔失敗: " +:+ exc))
    | Loaded data =>
        action <-- _require_table data "action" ;;
        paths <-- _require_table data "paths" ;;
        embedding <-- _require_table data "embedding" ;;
        search <-- _require_table data "search" ;;
        fzf <-- _require_table data "fzf" ;;
        title <-- _require_str action "title" ;;
        project <-- _require_str paths "semsearch_project" ;;
        db <-- _require_str paths "db_path" ;;
        faiss <-- _require_str paths "faiss_path" ;;
        zotero_db <-- _require_str paths "zotero_db_path" ;;
        storage <-- _require_str paths "zotero_storage_dir" ;;
        use_local <-- _require_bool embedding "use_local" ;;
        model <-- _require_str embedding "model" ;;
        prefix <-- _require_str search "semantic_prefix" ;;
        k <-- _require_int search "top_k" ;;
        max_docs <-- _require_int search "semantic_max_docs" ;;
        enable <-- _require_bool fzf "enable" ;;
        max_results <-- _require_int fzf "max_results" ;;
        max_candidates <-- _require_int fzf "max_candidates" ;;
        Ok {| action_title := title;
              semsearch_project := _expand_path project;
              db_path := _expand_path db;
              faiss_path := _expand_path faiss;
              zotero_db_path := _expand_path zotero_db;
              zotero_storage_dir := _expand_path storage;
              use_local_embedding := use_local;
              embedding_model := model;
              semantic_prefix := prefix;
              top_k := k;
              semantic_max_docs := max_docs;
              fzf_enable := enable;
              fzf_max_results := max_results;
              fzf_max_candidates := max_candidates |}
    end.

(** A table holds a string under [key] whose trimmed form is the non-empty
    [value]; a path setting is [_expand_path] of such a string. *)
Definition str_setting (table : list (string * toml_value)) (key value : string) : Prop :=
  ∃ raw, dict_get table key = Some (TString raw) ∧ value = Str.strip raw ∧ value ≠ "".

Definition path_setting (_expand_path : string -> string)
    (table : list (string * toml_value)) (key value : string) : Prop :=
  ∃ p, str_setting table key p ∧ value = _expand_path p.

(** ** Further predicates *)

(** Every effect but the writing of the output. *)
Definition silent_event (e : event) : Prop :=
  match e with
  | EvEmit _ => False
  | _ => True
  end.

(** The runs of the helper script in a trace. *)
Definition helper_runs (evs : list event) : list (list string) :=
  omap (fun e => match e with EvRunHelper cmd => Some cmd | _ => None end) evs.

(** A string without whitespace at either end. *)
Definition trimmed (s : string) : Prop := Str.strip s = s.


(** The item returned when no hit is left. *)
Definition no_results_item : Item.t := _item_info "找不到符合結果" "請嘗試不同關鍵字。".


(** The hint shown when no query was given. *)
Definition usage_item (cfg : config) : Item.t :=
  _item_info "請輸入搜尋關鍵字"
    ("一般模式=Zotero 本地關鍵字搜尋（fzf）；前綴 " +:+ SEMANTIC_PREFIX cfg
     +:+ " 可切換為語義搜尋。").

(** ** Further concrete inputs *)

(** Every readable file holds one export of the key, in single quotes. *)
Definition world_zshrc : world :=
  world_with config_remote (Ok []) (Ok (Proc 0 "" "")) None None None (Ok [])
    (Ok "# secrets
export OPENROUTER_API_KEY='sk-or-v1-abc'").

(** A complete configuration document. *)
Definition toml_complete : list (string * toml_item) :=
  [ ("action", TTable [("title", TString "Search in Zotero")]);
    ("paths", TTable [ ("semsearch_project", TString "~/Script/Semantic Search");
                       ("db_path", TString "~/index/zotero_pdf_v1.db");
                       ("faiss_path", TString "~/index/zotero_pdf_v1.faiss");
                       ("zotero_db_path", TString "~/Zotero/zotero.sqlite");
                       ("zotero_storage_dir", TString " ~/Zotero/storage ") ]);
    ("embedding", TTable [("use_local", TBool true); ("model", TString "qwen3-embedding:0.6b")]);
    ("search", TTable [ ("semantic_prefix", TString "`"); ("top_k", TInteger 20);
                        ("semantic_max_docs", TInteger 8) ]);
    ("fzf", TTable [ ("enable", TBool true); ("max_results", TInteger 50);
                     ("max_candidates", TInteger 1000) ]) ].

(** The same document with [top_k = true]. *)
Definition toml_boolean_top_k : list (string * toml_item) :=
  [ ("action", TTable [("title", TString "Search in Zotero")]);
    ("paths", TTable [ ("semsearch_project", TString "~/Script/Semantic Search");
                       ("db_path", TString "~/index/zotero_pdf_v1.db");
                       ("faiss_path", TString "~/index/zotero_pdf_v1.faiss");
                       ("zotero_db_path", TString "~/Zotero/zotero.sqlite");
                       ("zotero_storage_dir", TString "~/Zotero/storage") ]);
    ("embedding", TTable [("use_local", TBool true); ("model", TString "qwen3-embedding:0.6b")]);
    ("search", TTable [ ("semantic_prefix", TString "`"); ("top_k", TBool true);
                        ("semantic_max_docs", TInteger 8) ]);
    ("fzf", TTable [ ("enable", TBool true); ("max_results", TInteger 50);
                     ("max_candidates", TInteger 1000) ]) ].

(** Expansion of a leading tilde, for the examples. *)
Definition expand_home (p : string) : string :=
  if Str.startswith "~" p then "/Users/justin" +:+ Str.drop 1 p else p.

(** The world [w] in which the search package cannot be imported. *)
Definition without_semsearch (w : world) : world :=
  {| load_config := load_config w; exists_ := exists_ w; is_dir := is_dir w;
     is_file := is_file w; iterdir := iterdir w; read_text := read_text w;
     unquote := unquote w; getenv_api_key := getenv_api_key w; home := home w;
     import_semsearch := Some (OtherError "No module named 'semsearch'");
     search := search w; run_helper := run_helper w; json_loads := json_loads w;
     mkstemp := mkstemp w; sqlite_backup := sqlite_backup w; copy2 := copy2 w;
     sqlite_connect := sqlite_connect w; sqlite_fetchall := sqlite_fetchall w;
     format_score := format_score w |}.

(** The world [w] in which every attachment directory exists and holds the
    files [names], none of them at the stored path. *)
Definition with_attachment_files (w : world) (names : list string) : world :=
  {| load_config := load_config w; exists_ := exists_ w; is_dir := fun _ => Ok true;
     is_file := fun _ => Ok true; iterdir := fun _ => Ok names; read_text := read_text w;
     unquote := unquote w; getenv_api_key := getenv_api_key w; home := home w;
     import_semsearch := import_semsearch w;
     search := search w; run_helper := run_helper w; json_loads := json_loads w;
     mkstemp := mkstemp w; sqlite_backup := sqlite_backup w; copy2 := copy2 w;
     sqlite_connect := sqlite_connect w; sqlite_fetchall := sqlite_fetchall w;
     format_score := format_score w |}.

(** The search returns two hits without a usable path. *)
Definition world_blank_hits : world :=
  world_with config_local (Ok [Hit "" "K1" "A" 0.9; Hit "   " "K2" "B" 0.8])
    (Ok (Proc 0 "" "")) None None None (Ok []) (Ok "").

(** * Properties *)

(** ** Strings *)

Lemma nonempty_true (s : string) : Str.nonempty s = true ↔ s ≠ "".
Proof. destruct s; simpl; split; intros; congruence. Qed.

Lemma nonempty_false (s : string) : Str.nonempty s = false ↔ s = "".
Proof. destruct s; simpl; split; intros; congruence. Qed.

(** ** Scores *)

Lemma score_gt_true (a b : Q) : score_gt a b = true ↔ (b < a)%Q.
Proof.
  unfold score_gt. rewrite negb_true_iff. split.
  - intros H. apply Qnot_le_lt. intros Hle.
    apply Qle_bool_iff in Hle. congruence.
  - intros H. destruct (Qle_bool a b) eqn:E; [|reflexivity].
    apply Qle_bool_iff in E. exfalso. exact (Qlt_not_le _ _ H E).
Qed.

Lemma score_gt_false (a b : Q) : score_gt a b = false ↔ (a <= b)%Q.
Proof.
  unfold score_gt. rewrite negb_false_iff. apply Qle_bool_iff.
Qed.

(** ** Dictionaries *)

Section DictFacts.
Context {V : Type}.
Implicit Types (d : Dict.t V) (k : string) (v : V).

Lemma get_set_eq d k v : Dict.get (Dict.set d k v) k = Some v.
Proof.
  induction d as [|[k' v'] d IH]; simpl.
  - by rewrite String.eqb_refl.
  - destruct (String.eqb k' k) eqn:E; simpl; rewrite E; auto.
Qed.

Lemma get_set_ne d k k' v : k' ≠ k → Dict.get (Dict.set d k v) k' = Dict.get d k'.
Proof.
  intros Hne. induction d as [|[k0 v0] d IH]; simpl.
  - destruct (String.eqb_spec k k'); congruence.
  - destruct (String.eqb_spec k0 k) as [->|Hk]; simpl.
    + destruct (String.eqb_spec k k'); congruence.
    + destruct (String.eqb_spec k0 k'); auto.
Qed.

Lemma get_Some_elem d k v : Dict.get d k = Some v → (k, v) ∈ d.
Proof.
  induction d as [|[k0 v0] d IH]; simpl; [done|].
  destruct (String.eqb_spec k0 k) as [->|Hk].
  - intros [= ->]. left.
  - intros H. right. auto.
Qed.

Lemma get_None_keys d k : Dict.get d k = None ↔ k ∉ Dict.keys d.
Proof.
  induction d as [|[k0 v0] d IH]; simpl.
  - split; [intros _; apply not_elem_of_nil | done].
  - rewrite not_elem_of_cons. destruct (String.eqb_spec k0 k) as [->|Hk].
    + split; [done | intros [? _]; congruence].
    + rewrite IH. split; [intros; split; congruence | tauto].
Qed.

Lemma elem_get d k v : NoDup (Dict.keys d) → (k, v) ∈ d → Dict.get d k = Some v.
Proof.
  induction d as [|[k0 v0] d IH]; simpl; intros Hnd Hin.
  - by apply elem_of_nil in Hin.
  - apply NoDup_cons in Hnd as [Hk0 Hnd].
    apply elem_of_cons in Hin as [[= -> ->]|Hin].
    + by rewrite String.eqb_refl.
    + destruct (String.eqb_spec k0 k) as [->|Hk]; [|auto].
      exfalso. apply Hk0. unfold Dict.keys.
      apply (list_elem_of_fmap_2 fst) in Hin. exact Hin.
Qed.

Lemma keys_set_present d k v :
  k ∈ Dict.keys d → Dict.keys (Dict.set d k v) = Dict.keys d.
Proof.
  induction d as [|[k0 v0] d IH]; simpl; intros Hin.
  - by apply elem_of_nil in Hin.
  - destruct (String.eqb_spec k0 k) as [->|Hk]; simpl; [done|].
    apply elem_of_cons in Hin as [->|Hin]; [done|].
    f_equal. auto.
Qed.

Lemma keys_set_absent d k v :
  k ∉ Dict.keys d → Dict.keys (Dict.set d k v) = Dict.keys d ++ [k].
Proof.
  induction d as [|[k0 v0] d IH]; simpl; intros Hin; [done|].
  apply not_elem_of_cons in Hin as [Hne Hin].
  destruct (String.eqb_spec k0 k) as [->|Hk]; simpl; [done|].
  f_equal. auto.
Qed.

Lemma keys_set_NoDup d k v : NoDup (Dict.keys d) → NoDup (Dict.keys (Dict.set d k v)).
Proof.
  intros Hnd. destruct (decide (k ∈ Dict.keys d)) as [Hin|Hin].
  - by rewrite keys_set_present.
  - rewrite keys_set_absent by done.
    apply NoDup_app. split; [done|]. split; [|apply NoDup_singleton].
    intros x Hx Hx'. apply list_elem_of_singleton in Hx' as ->. done.
Qed.
End DictFacts.

(** ** Deduplication *)

Section Dedup.
Variable key : hit -> string.

Lemma first_best_snoc_keep (seen : list hit) (v h : hit) :
  first_best key seen v →
  (key h = key v → (fusion_score h <= fusion_score v)%Q) →
  first_best key (seen ++ [h]) v.
Proof.
  intros (l1 & l2 & -> & Hbefore & Hafter) Hh.
  exists l1, (l2 ++ [h]). split; [by rewrite <- app_assoc|].
  split; [done|]. intros h' Hin Hk.
  apply elem_of_app in Hin as [Hin|Hin]; [auto|].
  apply list_elem_of_singleton in Hin as ->. auto.
Qed.

Lemma first_best_below (seen : list hit) (v h h' : hit) :
  first_best key seen v → key h = key v →
  (fusion_score v < fusion_score h)%Q →
  h' ∈ seen → key h' = key h → (fusion_score h' < fusion_score h)%Q.
Proof.
  intros (l1 & l2 & -> & Hbefore & Hafter) Hkey Hlt Hin Hk.
  rewrite Hkey in Hk.
  apply elem_of_app in Hin as [Hin|Hin].
  - eapply Qlt_trans; [|exact Hlt]. auto.
  - apply elem_of_cons in Hin as [->|Hin]; [done|].
    eapply Qle_lt_trans; [|exact Hlt]. auto.
Qed.

Lemma first_best_snoc_new (seen : list hit) (h : hit) :
  (∀ h', h' ∈ seen → key h' = key h → (fusion_score h' < fusion_score h)%Q) →
  first_best key (seen ++ [h]) h.
Proof.
  intros Hall. exists seen, []. split; [done|]. split; [done|].
  intros h' Hin. by apply elem_of_nil in Hin.
Qed.
End Dedup.

Lemma dedup_inv_nil : dedup_inv [] [].
Proof.
  split.
  - apply NoDup_nil_2.
  - intros k v [=].
  - intros h Hin. by apply elem_of_nil in Hin.
Qed.

Lemma dedup_inv_skip (best : Dict.t hit) (seen : list hit) (h : hit) :
  dedup_inv best seen →
  (∀ v, Dict.get best (hit_source h) = Some v → (fusion_score h <= fusion_score v)%Q) →
  (hit_source h ≠ "" → is_Some (Dict.get best (hit_source h))) →
  dedup_inv best (seen ++ [h]).
Proof.
  intros [Hnd Hent Hcov] Hle Hpresent. split; [done| |].
  - intros k v Hget. destruct (Hent k v Hget) as (Hk & Hne & Hfb).
    repeat split; [done..|].
    apply first_best_snoc_keep; [done|].
    intros Heq. apply Hle. by rewrite Heq, Hk.
  - intros h' Hin Hne. apply elem_of_app in Hin as [Hin|Hin]; [auto|].
    apply list_elem_of_singleton in Hin as ->. auto.
Qed.

Lemma dedup_inv_store (best : Dict.t hit) (seen : list hit) (h : hit) :
  dedup_inv best seen →
  hit_source h ≠ "" →
  (∀ v, Dict.get best (hit_source h) = Some v → (fusion_score v < fusion_score h)%Q) →
  dedup_inv (Dict.set best (hit_source h) h) (seen ++ [h]).
Proof.
  intros [Hnd Hent Hcov] Hne Hlt. split.
  - by apply keys_set_NoDup.
  - intros k v. destruct (decide (k = hit_source h)) as [->|Hk].
    + rewrite get_set_eq. intros [= <-]. repeat split; [done|].
      apply first_best_snoc_new. intros h' Hin Hkey.
      destruct (Hcov h' Hin) as [v Hv]; [congruence|].
      rewrite Hkey in Hv. destruct (Hent _ _ Hv) as (Hvk & _ & Hfb).
      eapply first_best_below; eauto.
    + rewrite get_set_ne by done. intros Hget.
      destruct (Hent k v Hget) as (Hvk & Hkne & Hfb). repeat split; [done..|].
      apply first_best_snoc_keep; [done|]. congruence.
  - intros h' Hin Hne'. destruct (decide (hit_source h' = hit_source h)) as [->|Hk].
    + rewrite get_set_eq. by eexists.
    + rewrite get_set_ne by done.
      apply elem_of_app in Hin as [Hin|Hin]; [auto|].
      apply list_elem_of_singleton in Hin as ->. done.
Qed.

Lemma dedup_inv_step (best : Dict.t hit) (seen : list hit) (h : hit) :
  dedup_inv best seen → dedup_inv (dedup_step best h) (seen ++ [h]).
Proof.
  intros Hinv. unfold dedup_step.
  destruct (Str.nonempty (hit_source h)) eqn:Hne.
  - apply nonempty_true in Hne.
    destruct (Dict.get best (hit_source h)) as [current|] eqn:Hget.
    + destruct (score_gt (fusion_score h) (fusion_score current)) eqn:Hgt.
      * apply score_gt_true in Hgt. apply dedup_inv_store; [done..|].
        intros v Hv. rewrite Hget in Hv. by injection Hv as <-.
      * apply score_gt_false in Hgt. apply dedup_inv_skip; [done| |].
        -- intros v Hv. rewrite Hget in Hv. by injection Hv as <-.
        -- intros _. rewrite Hget. by eexists.
    + apply dedup_inv_store; [done..|]. intros v Hv. congruence.
  - apply nonempty_false in Hne. apply dedup_inv_skip; [done| |done].
    intros v Hv. destruct Hinv as [_ Hent _].
    destruct (Hent _ _ Hv) as (_ & Hk & _). done.
Qed.

Lemma dedup_inv_fold (raw_results : list hit) :
  ∀ best seen, dedup_inv best seen →
    dedup_inv (best_by_source_from best raw_results) (seen ++ raw_results).
Proof.
  induction raw_results as [|h raw IH]; intros best seen Hinv; simpl.
  - by rewrite app_nil_r.
  - replace (seen ++ h :: raw) with ((seen ++ [h]) ++ raw) by by rewrite <- app_assoc.
    apply IH. by apply dedup_inv_step.
Qed.

Lemma best_by_source_inv (raw_results : list hit) :
  dedup_inv (best_by_source raw_results) raw_results.
Proof. apply (dedup_inv_fold raw_results [] [] dedup_inv_nil). Qed.

Lemma values_elem {V} (d : Dict.t V) (v : V) :
  v ∈ Dict.values d → ∃ k, (k, v) ∈ d.
Proof.
  unfold Dict.values. intros Hin.
  apply list_elem_of_fmap in Hin as ([k v'] & -> & Hin). by exists k.
Qed.

Lemma keys_of_values (d : Dict.t hit) :
  (∀ k v, (k, v) ∈ d → hit_source v = k) →
  map hit_source (Dict.values d) = Dict.keys d.
Proof.
  induction d as [|[k v] d IH]; intros H; simpl; [done|].
  f_equal.
  - apply H. left.
  - apply IH. intros k' v' Hin. apply H. by right.
Qed.

(** C1, as the code has it: deduplication is by the source path with the
    surrounding whitespace removed. For every sequence of hits, the hits
    that survive have pairwise different trimmed paths; each survivor has a
    non-empty trimmed path and is, among the hits sharing it, the one with
    the greatest fusion score, the earliest of them when several reach it;
    every non-empty trimmed path of the input has its survivor. A hit whose
    path is empty (or blank) is therefore never among the survivors. *)
Theorem dedup_by_trimmed_source_path (raw_results : list hit) :
  deduplicates hit_source raw_results (deduplicated raw_results).
Proof.
  destruct (best_by_source_inv raw_results) as [Hnd Hent Hcov].
  unfold deduplicated. split; [|split].
  - rewrite keys_of_values; [done|].
    intros k v Hin. by destruct (Hent k v (elem_get _ _ _ Hnd Hin)).
  - intros s Hin. apply values_elem in Hin as [k Hin].
    destruct (Hent k s (elem_get _ _ _ Hnd Hin)) as (Hk & Hne & Hfb).
    split; [congruence|done].
  - intros h Hin Hne. destruct (Hcov h Hin Hne) as [s Hs].
    exists s. split.
    + apply get_Some_elem in Hs. unfold Dict.values.
      by apply (list_elem_of_fmap_2 snd) in Hs.
    + by destruct (Hent _ _ Hs).
Qed.

(** A hit without a path, or with a blank one, never survives. *)
Lemma blank_source_path_excluded (raw_results : list hit) (h : hit) :
  hit_source h = "" → h ∉ deduplicated raw_results.
Proof.
  intros Hblank Hin. destruct (best_by_source_inv raw_results) as [Hnd Hent _].
  apply values_elem in Hin as [k Hin].
  destruct (Hent k h (elem_get _ _ _ Hnd Hin)) as (Hk & Hne & _). congruence.
Qed.

(** The scenario of the design document: of two hits for [/a/x.pdf] with
    scores 0.5 and 0.8, the one with 0.8 survives. *)
Example duplicate_sources :
  unique_results 8 [Hit "/a/x.pdf" "" "" 0.5; Hit "/a/x.pdf" "" "" 0.8] =
    [Hit "/a/x.pdf" "" "" 0.8].
Proof. reflexivity. Qed.

(** C1 as worded, on the path as the collaborator gave it: two hits whose
    paths differ by a trailing space are merged, so the first path has no
    survivor. *)
Lemma dedup_by_raw_source_path_fails :
  ¬ deduplicates source_path hits_trailing_space (deduplicated hits_trailing_space).
Proof.
  intros (_ & _ & Hcov).
  destruct (Hcov (Hit "/a/x.md" "" "T" 0.5)) as (s & Hin & Hs).
  - left.
  - discriminate.
  - change (deduplicated hits_trailing_space)
      with [Hit "/a/x.md " "" "T" 0.8] in Hin.
    apply list_elem_of_singleton in Hin as ->. discriminate.
Qed.

(** ** Ranking and truncation *)

Section Sorting.
Context {A : Type} (key : A -> Q).

Let ge_key (a b : A) : Prop := (key b <= key a)%Q.

Lemma insert_desc_elem (x y : A) (l : list A) :
  y ∈ insert_desc key x l ↔ y = x ∨ y ∈ l.
Proof.
  induction l as [|z l IH]; simpl.
  - rewrite list_elem_of_singleton, elem_of_nil. tauto.
  - destruct (score_gt (key z) (key x)); rewrite !elem_of_cons; [rewrite IH|]; tauto.
Qed.

Lemma insert_desc_sorted (x : A) (l : list A) :
  StronglySorted ge_key l → StronglySorted ge_key (insert_desc key x l).
Proof.
  induction 1 as [|z l Hs IH Hall]; simpl.
  - constructor; [constructor | constructor].
  - destruct (score_gt (key z) (key x)) eqn:Hgt.
    + apply score_gt_true in Hgt. constructor; [done|].
      apply Forall_forall. intros y Hy. apply insert_desc_elem in Hy as [->|Hy].
      * by apply Qlt_le_weak.
      * rewrite Forall_forall in Hall. auto.
    + apply score_gt_false in Hgt. constructor; [by constructor|].
      constructor; [done|].
      apply Forall_forall. intros y Hy. rewrite Forall_forall in Hall.
      unfold ge_key. eapply Qle_trans; [apply (Hall y Hy)|done].
Qed.

Lemma sorted_desc_sorted (l : list A) : StronglySorted ge_key (sorted_desc key l).
Proof.
  induction l as [|x l IH]; simpl; [constructor|]. by apply insert_desc_sorted.
Qed.

Lemma sorted_desc_elem (y : A) (l : list A) : y ∈ sorted_desc key l ↔ y ∈ l.
Proof.
  induction l as [|x l IH]; simpl; [done|].
  rewrite insert_desc_elem, elem_of_cons, IH. tauto.
Qed.

Lemma insert_desc_length (x : A) (l : list A) :
  length (insert_desc key x l) = S (length l).
Proof.
  induction l as [|z l IH]; simpl; [done|].
  destruct (score_gt (key z) (key x)); simpl; by rewrite ?IH.
Qed.

Lemma sorted_desc_length (l : list A) : length (sorted_desc key l) = length l.
Proof.
  induction l as [|x l IH]; simpl; [done|]. by rewrite insert_desc_length, IH.
Qed.

Lemma take_sorted (R : A -> A -> Prop) (n : nat) (l : list A) :
  StronglySorted R l → StronglySorted R (take n l).
Proof.
  intros Hs. revert n. induction Hs as [|x l Hs IH Hall]; intros [|n]; simpl;
    try constructor; [apply IH|].
  by apply Forall_take.
Qed.

Lemma slice_to_sorted (R : A -> A -> Prop) (n : Z) (l : list A) :
  StronglySorted R l → StronglySorted R (slice_to n l).
Proof. unfold slice_to. destruct (0 <=? n)%Z; apply take_sorted. Qed.

Lemma slice_to_length (n : Z) (l : list A) :
  (0 <= n)%Z → (Z.of_nat (length (slice_to n l)) <= n)%Z.
Proof.
  intros Hn. unfold slice_to.
  destruct (Z.leb_spec 0 n); [|lia]. rewrite length_take. lia.
Qed.

Lemma take_elem (n : nat) (l : list A) (x : A) : x ∈ take n l → x ∈ l.
Proof.
  rewrite elem_of_take. intros (i & Hi & _). by eapply list_elem_of_lookup_2.
Qed.

Lemma slice_to_elem (n : Z) (l : list A) (x : A) : x ∈ slice_to n l → x ∈ l.
Proof. unfold slice_to. destruct (0 <=? n)%Z; apply take_elem. Qed.
End Sorting.

(** The results of the fusion are hits that survived deduplication. *)
Lemma unique_results_elem (cap : Z) (raw_results : list hit) (h : hit) :
  h ∈ unique_results cap raw_results → h ∈ deduplicated raw_results.
Proof.
  intros Hin. apply slice_to_elem in Hin. by apply sorted_desc_elem in Hin.
Qed.

(** Without truncation nothing is lost: sorting keeps every survivor. *)
Lemma sorted_desc_keeps_all (raw_results : list hit) :
  length (sorted_desc fusion_score (deduplicated raw_results)) =
    length (deduplicated raw_results).
Proof. apply sorted_desc_length. Qed.

(** The ranking holds for every cap: a slice of a sorted list is sorted. *)
Lemma unique_results_nonincreasing (cap : Z) (raw_results : list hit) :
  nonincreasing (unique_results cap raw_results).
Proof. apply slice_to_sorted, sorted_desc_sorted. Qed.

(** C2: whatever the hits, at most [SEMANTIC_MAX_DOCS] results survive
    fusion, and their fusion scores never increase along the list. The cap
    is a number of results, so it is not negative: no list is shorter than
    that. *)
Theorem cap_and_order_nonnegative_cap (cap : Z) (raw_results : list hit) :
  (0 <= cap)%Z → cap_and_order cap raw_results.
Proof.
  intros Hcap. split.
  - by apply slice_to_length.
  - apply unique_results_nonincreasing.
Qed.

Lemma cap_and_order_nonnegative_cap_witness :
  (0 <= 2)%Z ∧ cap_and_order 2 hits_three.
Proof.
  split; [lia|]. apply (cap_and_order_nonnegative_cap 2 hits_three). lia.
Defined.

(** ** The fallback on a failed search *)

(** Once the paths are there, the key is found and the package is
    imported, the semantic search is the call of [search] and what follows
    it. *)
Lemma build_semantic_items_searches (cfg : config) (w : world) (query : string)
    (api_key : option string) (st : state) :
  _validate_semantic_paths cfg w = Ok None →
  api_key_of cfg w = Ok api_key →
  no_api_key api_key = false →
  import_semsearch w = None →
  _build_semantic_items cfg w query st =
    match search w query api_key with
    | Raise exc => search_failed cfg w query exc st
    | Ok raw_results => fuse cfg w raw_results st
    end.
Proof.
  intros Hpaths Hkey Hno Himport.
  unfold _build_semantic_items, bind, lift. rewrite Hpaths, Hkey, Hno, Himport.
  by destruct (search w query api_key).
Qed.

(** C3, as the code has it. When the call of [search] raises: with a local
    embedding backend the keyword search runs on the same query and its
    items are returned behind one informational item that carries the
    cause, unless one of them is marked as an error, in which case the only
    item returned is the error item of the failed search, with its cause;
    with a remote backend that error item is returned and the keyword search
    does not run. *)
Theorem fallback_policy (cfg : config) (w : world) (query : string) (exc : exn) (st : state) :
  search_raises cfg w query exc →
  _build_semantic_items cfg w query st =
    if USE_LOCAL_EMBEDDING cfg then
      match _run_fzf_mode cfg w query st with
      | (Ok fallback_items, st') =>
          (Ok (if existsb Item.is_error fallback_items
               then [search_failed_item exc]
               else fallback_notice exc :: fallback_items), st')
      | (Raise e, st') => (Raise e, st')
      end
    else (Ok [search_failed_item exc], st).
Proof.
  intros (Hpaths & api_key & Hkey & Hno & Himport & Hsearch).
  rewrite (build_semantic_items_searches _ _ _ _ _ Hpaths Hkey Hno Himport), Hsearch.
  unfold search_failed. destruct (USE_LOCAL_EMBEDDING cfg); [|done].
  unfold bind. destruct (_run_fzf_mode cfg w query st) as [[items|e] st']; [|done].
  by destruct (existsb Item.is_error items).
Qed.

Lemma fallback_policy_witness :
  search_raises config_local world_fallback_ok "attention" (OtherError "connection refused") ∧
  _build_semantic_items config_local world_fallback_ok "attention" state_empty =
    (Ok [fallback_notice (OtherError "connection refused"); _item_info "paper.pdf" "Doe 2020"],
     {| files := ∅;
        trace := [EvRunHelper ["/action/Scripts/default.sh"; "attention"]] |}).
Proof.
  assert (search_raises config_local world_fallback_ok "attention"
            (OtherError "connection refused")) as H.
  { split; [reflexivity|]. by exists None. }
  split; [exact H|].
  rewrite (fallback_policy _ _ _ _ state_empty H). reflexivity.
Defined.

(** The scenario of the design document for a remote backend: the search
    raises, one error item is returned and the helper script does not run. *)
Example remote_backend_failure :
  _build_semantic_items config_remote
    (world_with config_remote (Raise (OtherError "401 Unauthorized"))
       (Ok (Proc 0 "" "")) None None None (Ok []) (Ok ""))
    "attention" state_empty =
  (Ok [_item_error "搜尋失敗" "401 Unauthorized"], state_empty).
Proof. reflexivity. Qed.

(** C3 as worded: when the keyword search reports an error too, its error
    item is not what is shown; the error of the failed search is. *)
Lemma fallback_policy_as_worded_fails :
  ¬ fallback_policy_as_worded config_local world_both_fail "attention" state_empty.
Proof.
  intros H. specialize (H (OtherError "connection refused")).
  assert (search_raises config_local world_both_fail "attention"
            (OtherError "connection refused")) as Hr.
  { split; [reflexivity|]. by exists None. }
  specialize (H Hr). vm_compute in H. discriminate H.
Qed.

(** ** The snapshot *)

(** The run of [_create_db_snapshot], by what the two copy methods do. *)
Lemma create_db_snapshot_run (w : world) (src_path : string) (st : state) :
  let tmp := mkstemp w in
  let started := trace st ++ [EvMkstemp tmp; EvBackup src_path tmp] in
  _create_db_snapshot w src_path st =
    match sqlite_backup w src_path tmp, copy2 w src_path tmp with
    | None, _ =>
        (Ok tmp, {| files := {[tmp]} ∪ files st; trace := started |})
    | Some _, None =>
        (Ok tmp, {| files := {[tmp]} ∪ files st;
                    trace := started ++ [EvCopy2 src_path tmp] |})
    | Some _, Some exc =>
        (Raise (RuntimeError (snapshot_error_prefix +:+ exc)),
         {| files := files st ∖ {[tmp]};
            trace := started ++ [EvCopy2 src_path tmp; EvUnlink tmp] |})
    end.
Proof.
  intros tmp started. unfold _create_db_snapshot, bind, create_file, log, ret. simpl.
  fold tmp. subst started.
  destruct (sqlite_backup w src_path tmp) as [err|]; simpl.
  - destruct (copy2 w src_path tmp) as [exc|]; simpl.
    + unfold file_exists, unlink, raise; simpl.
      rewrite bool_decide_eq_true_2 by set_solver. simpl.
      f_equal. f_equal; [set_solver|]. by rewrite <- !app_assoc.
    + f_equal. f_equal. by rewrite <- !app_assoc.
  - f_equal. f_equal. by rewrite <- !app_assoc.
Qed.

Lemma create_db_snapshot_Ok (w : world) (src_path snapshot : string) (st st1 : state) :
  _create_db_snapshot w src_path st = (Ok snapshot, st1) →
  snapshot = mkstemp w ∧ snapshot ∈ files st1 ∧
  (sqlite_backup w src_path snapshot = None ∨
   is_Some (sqlite_backup w src_path snapshot) ∧ copy2 w src_path snapshot = None ∧
   EvCopy2 src_path snapshot ∈ trace st1).
Proof.
  rewrite create_db_snapshot_run.
  destruct (sqlite_backup w src_path (mkstemp w)) as [err|] eqn:Hb.
  - destruct (copy2 w src_path (mkstemp w)) as [exc|] eqn:Hc; [done|].
    intros [= Hs Hst]; subst. simpl. split; [done|]. split; [set_solver|].
    right. rewrite Hb. split; [by eexists|]. split; [done|].
    apply elem_of_app. right. left.
  - intros [= Hs Hst]; subst. simpl. split; [done|]. split; [set_solver|]. by left.
Qed.

Lemma create_db_snapshot_Raise (w : world) (src_path : string) (e : exn) (st st1 : state) :
  _create_db_snapshot w src_path st = (Raise e, st1) →
  ∃ err exc,
    sqlite_backup w src_path (mkstemp w) = Some err ∧
    copy2 w src_path (mkstemp w) = Some exc ∧
    e = RuntimeError (snapshot_error_prefix +:+ exc) ∧
    EvCopy2 src_path (mkstemp w) ∈ trace st1 ∧
    mkstemp w ∉ files st1.
Proof.
  rewrite create_db_snapshot_run.
  destruct (sqlite_backup w src_path (mkstemp w)) as [err|] eqn:Hb; [|done].
  destruct (copy2 w src_path (mkstemp w)) as [exc|] eqn:Hc; [|done].
  intros [= Hs Hst]; subst. exists err, exc. simpl. repeat split; [|set_solver].
  apply elem_of_app. right. left.
Qed.

(** C8: how [_create_db_snapshot] ends. When it returns, it returns the
    temporary file, which exists, and either the backup succeeded or the
    backup failed, the file was then copied and the copy succeeded. When it
    raises, the backup failed, the copy was attempted and failed too, the
    exception is a [RuntimeError] carrying the cause of the failed copy, and
    the temporary file no longer exists. *)
Theorem snapshot_creation_contract (w : world) (src_path : string) (st : state) :
  let tmp := mkstemp w in
  match _create_db_snapshot w src_path st with
  | (Ok snapshot, st') =>
      snapshot = tmp ∧ snapshot ∈ files st' ∧
      (sqlite_backup w src_path snapshot = None ∨
       is_Some (sqlite_backup w src_path snapshot) ∧ copy2 w src_path snapshot = None ∧
       EvCopy2 src_path snapshot ∈ trace st')
  | (Raise e, st') =>
      ∃ err exc,
        sqlite_backup w src_path tmp = Some err ∧
        copy2 w src_path tmp = Some exc ∧
        e = RuntimeError (snapshot_error_prefix +:+ exc) ∧
        EvCopy2 src_path tmp ∈ trace st' ∧
        tmp ∉ files st'
  end.
Proof.
  intros tmp. destruct (_create_db_snapshot w src_path st) as [[snapshot|e] st'] eqn:Hrun.
  - by apply create_db_snapshot_Ok in Hrun.
  - by apply create_db_snapshot_Raise in Hrun.
Qed.

(** The [try]/[finally] of [_load_attachment_meta] on a snapshot: whatever
    the query does, the snapshot is the only path connected to and queried,
    and the last effect is its deletion. *)
Lemma query_and_release_run (cfg : config) (w : world) (snapshot : string)
    (keys : list string) (st1 : state) :
  ∃ r evs,
    try_finally (query_snapshot cfg w snapshot keys) (release_snapshot w snapshot) st1 =
      (r, {| files := files st1 ∖ {[snapshot]}; trace := trace st1 ++ evs |}) ∧
    last evs = Some (EvUnlink snapshot) ∧
    (∀ p, EvConnect p ∈ evs → p = snapshot) ∧
    (∀ p ks, EvFetchall p ks ∈ evs → p = snapshot).
Proof.
  unfold try_finally, query_snapshot, release_snapshot, bind, log, lift, unlink, raise, ret.
  simpl. destruct (sqlite_connect w snapshot) as [exc|]; simpl.
  - exists (Raise (SqliteError exc)), [EvConnect snapshot; EvUnlink snapshot].
    rewrite <- !app_assoc. simpl. split; [done|]. split; [done|].
    split; intros; set_solver.
  - destruct (sqlite_fetchall w snapshot keys) as [rows|e]; simpl.
    + exists (store_rows cfg w ∅ rows),
        [EvConnect snapshot; EvFetchall snapshot keys; EvClose snapshot; EvUnlink snapshot].
      rewrite <- !app_assoc. simpl. split; [done|]. split; [done|].
      split; intros; set_solver.
    + exists (Raise e),
        [EvConnect snapshot; EvFetchall snapshot keys; EvClose snapshot; EvUnlink snapshot].
      rewrite <- !app_assoc. simpl. split; [done|]. split; [done|].
      split; intros; set_solver.
Qed.

(** C9: once [_create_db_snapshot] has returned a snapshot, the lookup ends,
    with a result or with an exception, in a state where the snapshot file
    does not exist: deleting it is the last thing the call does. Between the
    creation and the deletion the only database connected to and queried is
    the snapshot, so not the source database, which is another file. *)
Theorem snapshot_released (cfg : config) (w : world) (attachment_keys : list string)
    (st st1 : state) (snapshot : string) :
  List.filter Str.nonempty attachment_keys ≠ [] →
  _create_db_snapshot w (ZOTERO_DB_SRC cfg) st = (Ok snapshot, st1) →
  ∃ r evs,
    _load_attachment_meta cfg w attachment_keys st =
      (r, {| files := files st1 ∖ {[snapshot]}; trace := trace st1 ++ evs |}) ∧
    (snapshot ∉ files st1 ∖ {[snapshot]}) ∧
    last evs = Some (EvUnlink snapshot) ∧
    (∀ p, EvConnect p ∈ evs → p = snapshot) ∧
    (∀ p ks, EvFetchall p ks ∈ evs → p = snapshot) ∧
    (snapshot ≠ ZOTERO_DB_SRC cfg →
       (EvConnect (ZOTERO_DB_SRC cfg) ∉ evs) ∧
       (∀ ks, EvFetchall (ZOTERO_DB_SRC cfg) ks ∉ evs)).
Proof.
  intros Hkeys Hsnap. unfold _load_attachment_meta.
  destruct (List.filter Str.nonempty attachment_keys) as [|k keys] eqn:Hk; [done|].
  unfold bind at 1. rewrite Hsnap.
  destruct (query_and_release_run cfg w snapshot (k :: keys) st1)
    as (r & evs & Hrun & Hlast & Hconn & Hfetch).
  exists r, evs. split; [done|]. split; [set_solver|]. split; [done|]. split; [done|].
  split; [done|]. intros Hne. split.
  - intros Hin. apply Hconn in Hin. done.
  - intros ks Hin. apply Hfetch in Hin. done.
Qed.

Lemma snapshot_released_witness :
  ∃ r evs,
    _load_attachment_meta config_local world_query_fails ["K1"] state_empty =
      (r, {| files := files {| files := {[mkstemp world_query_fails]};
                               trace := [EvMkstemp (mkstemp world_query_fails);
                                         EvBackup "/z/zotero.sqlite" (mkstemp world_query_fails);
                                         EvCopy2 "/z/zotero.sqlite" (mkstemp world_query_fails)] |}
                      ∖ {[mkstemp world_query_fails]};
             trace := [EvMkstemp (mkstemp world_query_fails);
                       EvBackup "/z/zotero.sqlite" (mkstemp world_query_fails);
                       EvCopy2 "/z/zotero.sqlite" (mkstemp world_query_fails)] ++ evs |}) ∧
    last evs = Some (EvUnlink (mkstemp world_query_fails)).
Proof.
  destruct (snapshot_released config_local world_query_fails ["K1"] state_empty
              {| files := {[mkstemp world_query_fails]};
                 trace := [EvMkstemp (mkstemp world_query_fails);
                           EvBackup "/z/zotero.sqlite" (mkstemp world_query_fails);
                           EvCopy2 "/z/zotero.sqlite" (mkstemp world_query_fails)] |}
              (mkstemp world_query_fails))
    as (r & evs & Hrun & _ & Hlast & _).
  - discriminate.
  - vm_compute. reflexivity.
  - exists r, evs. split; [exact Hrun | exact Hlast].
Defined.

(** C10: when every requested identifier is empty, and so when none is
    requested, the lookup returns the empty mapping and leaves the state as
    it was: no temporary file is created, no database is opened or copied. *)
Theorem load_meta_short_circuit (cfg : config) (w : world) (attachment_keys : list string)
    (st : state) :
  Forall (fun key => key = "") attachment_keys →
  _load_attachment_meta cfg w attachment_keys st = (Ok ∅, st).
Proof.
  intros Hall. unfold _load_attachment_meta.
  assert (List.filter Str.nonempty attachment_keys = []) as ->; [|done].
  induction Hall as [|k keys -> _ IH]; simpl; done.
Qed.

Lemma load_meta_short_circuit_witness :
  _load_attachment_meta config_local world_no_snapshot [] state_empty = (Ok ∅, state_empty).
Proof.
  apply (load_meta_short_circuit config_local world_no_snapshot [] state_empty).
  constructor.
Defined.

(** ** The path resolver *)

Lemma insert_path_elem (x y : Path.t) (l : list Path.t) :
  y ∈ insert_path x l ↔ y = x ∨ y ∈ l.
Proof.
  induction l as [|z l IH]; simpl.
  - rewrite list_elem_of_singleton, elem_of_nil. tauto.
  - destruct (path_ltb z x); rewrite !elem_of_cons; [rewrite IH|]; tauto.
Qed.

Lemma sorted_paths_elem (y : Path.t) (l : list Path.t) : y ∈ sorted_paths l ↔ y ∈ l.
Proof.
  induction l as [|x l IH]; simpl; [done|].
  rewrite insert_path_elem, elem_of_cons, IH. tauto.
Qed.

(** ** The order of paths *)

Lemma ascii_compare_refl (c : ascii) : Ascii.compare c c = Eq.
Proof. unfold Ascii.compare. apply N.compare_refl. Qed.

Lemma ascii_compare_lt_trans (a b c : ascii) :
  Ascii.compare a b = Lt → Ascii.compare b c = Lt → Ascii.compare a c = Lt.
Proof.
  unfold Ascii.compare. rewrite !N.compare_lt_iff. apply N.lt_trans.
Qed.

Lemma string_compare_refl (s : string) : String.compare s s = Eq.
Proof.
  induction s as [|c s IH]; simpl; [done|]. by rewrite ascii_compare_refl.
Qed.

Lemma string_compare_lt_trans (a b c : string) :
  String.compare a b = Lt → String.compare b c = Lt → String.compare a c = Lt.
Proof.
  revert b c. induction a as [|x a IH]; intros [|y b] [|z c]; simpl; try done.
  destruct (Ascii.compare x y) eqn:Hxy; [|destruct (Ascii.compare y z) eqn:Hyz|done].
  - apply Ascii.compare_eq_iff in Hxy as ->.
    destruct (Ascii.compare y z); [apply IH|done..].
  - apply Ascii.compare_eq_iff in Hyz as ->. by rewrite Hxy.
  - by rewrite (ascii_compare_lt_trans _ _ _ Hxy Hyz).
  - done.
Qed.

Lemma parts_ltb_irrefl (a : list string) : parts_ltb a a = false.
Proof.
  induction a as [|x a IH]; simpl; [done|]. by rewrite string_compare_refl.
Qed.

Lemma parts_ltb_trans (a b c : list string) :
  parts_ltb a b = true → parts_ltb b c = true → parts_ltb a c = true.
Proof.
  revert b c. induction a as [|x a IH]; intros [|y b] [|z c]; simpl; try done.
  destruct (String.compare x y) eqn:Hxy; [|destruct (String.compare y z) eqn:Hyz|done].
  - apply String.compare_eq_iff in Hxy as ->.
    destruct (String.compare y z); [apply IH|done..].
  - apply String.compare_eq_iff in Hyz as ->. by rewrite Hxy.
  - by rewrite (string_compare_lt_trans _ _ _ Hxy Hyz).
  - done.
Qed.

Lemma parts_ltb_connected (a b : list string) :
  parts_ltb a b = false → parts_ltb b a = false → a = b.
Proof.
  revert b. induction a as [|x a IH]; intros [|y b]; simpl; try done.
  rewrite (String.compare_antisym y x).
  destruct (String.compare x y) eqn:Hxy; simpl; try done.
  apply String.compare_eq_iff in Hxy as ->. intros H1 H2. f_equal. by apply IH.
Qed.

Lemma parts_ltb_asym (a b : list string) :
  parts_ltb a b = true → parts_ltb b a = false.
Proof.
  intros Hab. destruct (parts_ltb b a) eqn:Hba; [|done].
  by rewrite <- (parts_ltb_irrefl a), (parts_ltb_trans a b a).
Qed.

(** Nothing sorts before the first of the sorted paths. *)
Lemma sorted_paths_head (l : list Path.t) (p : Path.t) (rest : list Path.t) :
  sorted_paths l = p :: rest → ∀ q, q ∈ l → path_ltb q p = false.
Proof.
  revert p rest. induction l as [|x l IH]; intros p rest; simpl; [done|].
  destruct (sorted_paths l) as [|y s] eqn:Hs.
  - simpl. intros [= <- _] q Hq. apply elem_of_cons in Hq as [->|Hq].
    + apply parts_ltb_irrefl.
    + apply sorted_paths_elem in Hq. rewrite Hs in Hq. by apply elem_of_nil in Hq.
  - specialize (IH y s eq_refl). simpl.
    destruct (path_ltb y x) eqn:Hyx; intros [= <- _] q Hq;
      apply elem_of_cons in Hq as [->|Hq].
    + by apply parts_ltb_asym.
    + by apply IH.
    + apply parts_ltb_irrefl.
    + specialize (IH q Hq). unfold path_ltb in *.
      destruct (parts_ltb (cparts q) (cparts x)) eqn:Hqx; [|done].
      destruct (parts_ltb (cparts y) (cparts q)) eqn:Hyq.
      * by rewrite (parts_ltb_trans _ _ _ Hyq Hqx) in Hyx.
      * rewrite (parts_ltb_connected _ _ IH Hyq) in Hqx. congruence.
Qed.

(** ** The outcomes of the resolver *)

Lemma select_pdfs_Ok (w : world) (entries pdfs : list Path.t) :
  select_pdfs w entries = Ok pdfs →
  Forall (fun p => ∃ b, is_file w (Path.to_string p) = Ok b) entries ∧
  ∀ p, p ∈ pdfs ↔ p ∈ entries ∧ pdf_file w p.
Proof.
  revert pdfs. induction entries as [|q entries IH]; intros pdfs; cbn [select_pdfs].
  { intros [= <-]. split; [constructor|]. intros p. set_solver. }
  unfold is_pdf, pdf_file.
  destruct (is_file w (Path.to_string q)) as [file|e] eqn:Hfile; cbn [and_then]; [|done].
  destruct (select_pdfs w entries) as [rest|e] eqn:Hrest; cbn [and_then]; [|done].
  destruct (IH rest eq_refl) as [Hall Hin]. intros [= <-].
  split; [constructor; [by eexists|done]|].
  intros p. unfold pdf_file in Hin.
  destruct file; cbn [andb].
  - destruct (String.eqb_spec (lower (Path.suffix q)) ".pdf") as [Hs|Hs].
    + rewrite !elem_of_cons, Hin. split; [intros [->|?]|]; naive_solver.
    + rewrite elem_of_cons, Hin. split; [naive_solver|].
      intros [[->|?] [? ?]]; [done|naive_solver].
  - rewrite elem_of_cons, Hin. split; [naive_solver|].
    intros [[->|?] [? ?]]; [congruence|naive_solver].
Qed.

Lemma select_pdfs_Raise (w : world) (dir : Path.t) (names : list string) (e : exn) :
  select_pdfs w (map (Path.join dir) names) = Raise e →
  ∃ before name after,
    names = before ++ name :: after ∧ Forall (tested w dir) before ∧
    is_file w (Path.to_string (Path.join dir name)) = Raise e.
Proof.
  induction names as [|n names IH]; cbn [map select_pdfs]; [done|].
  unfold is_pdf.
  destruct (is_file w (Path.to_string (Path.join dir n))) as [file|e'] eqn:Hfile;
    cbn [and_then].
  - destruct (select_pdfs w (map (Path.join dir) names)) as [rest|e'] eqn:Hrest;
      cbn [and_then]; [done|].
    intros [= ->]. destruct (IH eq_refl) as (before & name & after & -> & Hall & Hraise).
    exists (n :: before), name, after. split; [done|]. split; [|done].
    constructor; [by exists file|done].
  - intros [= ->]. by exists [], n, names.
Qed.

(** The directory scan of the resolver does what [scans] says. *)
Lemma first_pdf_scans (w : world) (dir : Path.t) : scans w dir (first_pdf w dir).
Proof.
  unfold first_pdf.
  destruct (is_dir w (Path.to_string dir)) as [[|]|e] eqn:Hdir; cbn [and_then];
    [|by apply scans_no_dir|by apply scans_dir_raises].
  unfold pdfs_of.
  destruct (iterdir w (Path.to_string dir)) as [names|e] eqn:Hnames; cbn [and_then];
    [|by apply scans_listing_raises].
  destruct (select_pdfs w (map (Path.join dir) names)) as [pdfs|e] eqn:Hsel;
    cbn [and_then].
  - destruct (select_pdfs_Ok _ _ _ Hsel) as [Hall Hin].
    assert (Forall (tested w dir) names) as Htested.
    { apply Forall_forall. intros name Hname. rewrite Forall_forall in Hall.
      apply Hall. by apply list_elem_of_fmap_2. }
    destruct (sorted_paths pdfs) as [|p rest] eqn:Hsorted.
    + apply (scans_no_pdf w dir names); [done..|].
      intros name Hname Hpdf.
      assert (Path.join dir name ∈ sorted_paths pdfs) as Habs.
      { apply sorted_paths_elem, Hin. split; [by apply list_elem_of_fmap_2|done]. }
      rewrite Hsorted in Habs. by apply elem_of_nil in Habs.
    + assert (p ∈ pdfs) as Hp.
      { apply sorted_paths_elem. rewrite Hsorted. left. }
      apply Hin in Hp as [Hentry Hpdf].
      apply list_elem_of_fmap in Hentry as (name & -> & Hname).
      apply (scans_least_pdf w dir names name); [done..|].
      intros other Hother Hopdf. eapply sorted_paths_head; [exact Hsorted|].
      apply Hin. split; [by apply list_elem_of_fmap_2|done].
  - destruct (select_pdfs_Raise _ _ _ _ Hsel) as (before & name & after & -> & Hall & Hraise).
    by eapply scans_entry_raises.
Qed.

Lemma resolve_pdf_path_resolves (cfg : config) (w : world)
    (raw_path attachment_key : string) :
  resolves cfg w raw_path attachment_key (_resolve_pdf_path cfg w raw_path attachment_key).
Proof.
  unfold _resolve_pdf_path.
  destruct (Str.startswith "storage:" (Str.strip raw_path)) eqn:Hstorage.
  - destruct (Str.nonempty (stored_rel (Str.strip raw_path))) eqn:Hrel.
    + apply nonempty_true in Hrel.
      destruct (exists_ w _) as [[|]|e] eqn:Hexists; cbn [and_then].
      * by eapply resolves_stored.
      * apply resolves_stored_missing; [done|by right|apply first_pdf_scans].
      * by eapply resolves_stored_raises.
    + apply nonempty_false in Hrel. cbn [and_then].
      apply resolves_stored_missing; [done|by left|apply first_pdf_scans].
  - destruct (Str.startswith "file:" (Str.strip raw_path)) eqn:Hfile.
    + set (decoded := unquote w (strip_file_scheme (Str.strip raw_path))).
      pose proof (resolves_uri cfg w raw_path attachment_key decoded Hstorage Hfile eq_refl)
        as Huri.
      by destruct (Str.nonempty decoded && negb (Str.startswith "/" decoded)).
    + destruct (Str.nonempty (Str.strip raw_path)) eqn:Hraw.
      * apply resolves_bare; [done..|]. by apply nonempty_true.
      * apply resolves_empty; [by apply nonempty_false|apply first_pdf_scans].
Qed.

Lemma scans_Raise (w : world) (dir : Path.t) (e : exn) :
  scans w dir (Raise e) → fs_raises w e.
Proof.
  inversion 1; subst; eexists; eauto.
Qed.

Lemma resolves_Raise (cfg : config) (w : world) (raw_path attachment_key : string)
    (e : exn) :
  resolves cfg w raw_path attachment_key (Raise e) → fs_raises w e.
Proof.
  inversion 1; subst; try (by eapply scans_Raise). eexists; eauto.
Qed.

Lemma fs_answers_raises (w : world) (e : exn) : fs_answers w → ¬ fs_raises w e.
Proof.
  intros Hfs [p Hp]. destruct (Hfs p) as ([b1 H1] & [b2 H2] & [b3 H3] & [ns H4]).
  destruct Hp as [Hp|[Hp|[Hp|Hp]]]; congruence.
Qed.

(** C7, as the code has it. The resolver has no exception of its own and
    catches none: it returns a string whenever the queries it makes of the
    file system answer, and a file URI or a bare path is resolved without
    any query; when it raises, it raises what [exists], [is_dir], [iterdir]
    or [is_file] raised. Its outcome is, for a storage-relative path, the
    stored file if it exists, else what the scan of the attachment directory
    gives; for a file URI the decoded path; for any other non-empty path
    that path; for an empty path what the scan gives. The scan gives the
    empty string exactly when the directory does not exist or holds no PDF
    file, and otherwise the least of its PDF files. *)
Theorem resolve_pdf_path_outcome (cfg : config) (w : world)
    (raw_path attachment_key : string) :
  let r := _resolve_pdf_path cfg w raw_path attachment_key in
  resolves cfg w raw_path attachment_key r ∧
  (fs_answers w → returns_string r) ∧
  (Str.startswith "storage:" (Str.strip raw_path) = false → Str.strip raw_path ≠ "" →
     returns_string r) ∧
  (∀ e, r = Raise e → fs_raises w e).
Proof.
  intros r. pose proof (resolve_pdf_path_resolves cfg w raw_path attachment_key) as Hr.
  fold r in Hr. split; [done|]. split; [|split].
  - intros Hfs. destruct r as [answer|e]; [by exists answer|].
    destruct (fs_answers_raises w e Hfs). by eapply resolves_Raise.
  - intros Hstorage Hraw. subst r. unfold _resolve_pdf_path. rewrite Hstorage.
    apply nonempty_true in Hraw. rewrite Hraw.
    destruct (Str.startswith "file:" (Str.strip raw_path)); [|by eexists].
    destruct (_ && _); by eexists.
  - intros e He. rewrite He in Hr. by eapply resolves_Raise.
Qed.

Lemma resolve_pdf_path_outcome_witness :
  returns_string (_resolve_pdf_path config_local world_pdf_from_sidecar "storage:paper.pdf" "K1").
Proof.
  destruct (resolve_pdf_path_outcome config_local world_pdf_from_sidecar
              "storage:paper.pdf" "K1") as (_ & Hreturns & _).
  apply Hreturns. intros p. repeat split; eexists; reflexivity.
Defined.

(** C7 as worded: the database holds an attachment whose file name is
    longer than the file system accepts; [exists] on the stored file raises
    the [OSError] of [stat], and so does the resolver. *)
Lemma resolve_pdf_path_raises :
  _resolve_pdf_path config_local world_name_limit ("storage:" +:+ long_name) "K1" =
    Raise (OSError "[Errno 63] File name too long") ∧
  ¬ resolver_never_raises config_local world_name_limit ("storage:" +:+ long_name) "K1".
Proof.
  assert (_resolve_pdf_path config_local world_name_limit ("storage:" +:+ long_name) "K1" =
            Raise (OSError "[Errno 63] File name too long")) as H
    by (vm_compute; reflexivity).
  split; [exact H|]. intros [answer Hanswer].
  unfold resolver_never_raises in *. rewrite H in Hanswer. discriminate Hanswer.
Qed.

(** The same attachment, seen from [main]: the metadata lookup lets the
    exception of the resolver through, and nothing is written. *)
Example long_file_name_ends_main :
  ∃ st,
    main world_name_limit ["`attention"] state_empty =
      (Raise (OSError "[Errno 63] File name too long"), st) ∧
    emitted st = [] ∧ files st = ∅.
Proof. eexists. split; [vm_compute; reflexivity|]. split; reflexivity. Qed.

(** ** What reaches the launcher *)

(** C4 fails on the code: an exception of the metadata lookup is caught
    nowhere. With a local backend, a search that finds the hit [K1], and a
    Zotero database that can neither be backed up nor copied, [main] ends
    with the [RuntimeError] of [_create_db_snapshot] and writes nothing. And
    without any failure, a helper script that prints an empty array makes
    [main] write an empty list. *)
Theorem main_output_not_total :
  (∃ st,
     main world_no_snapshot ["`attention"] state_empty =
       (Raise (RuntimeError (snapshot_error_prefix +:+ "[Errno 13] Permission denied")), st) ∧
     emitted st = []) ∧
  (∃ st,
     main world_empty_array ["attention"] state_empty = (Ok 0%Z, st) ∧
     emitted st = [[]]).
Proof.
  split; eexists; (split; [vm_compute; reflexivity | reflexivity]).
Qed.

(** ** Identifiers and the batched lookup *)

Lemma build_semantic_items_fuse (cfg : config) (w : world) (query : string)
    (raw_results : list hit) (st : state) :
  search_returns cfg w query raw_results →
  _build_semantic_items cfg w query st = fuse cfg w raw_results st.
Proof.
  intros (Hpaths & api_key & Hkey & Hno & Himport & Hsearch).
  by rewrite (build_semantic_items_searches _ _ _ _ _ Hpaths Hkey Hno Himport), Hsearch.
Qed.

Lemma load_meta_calls_app (evs1 evs2 : list event) :
  load_meta_calls (evs1 ++ evs2) = load_meta_calls evs1 ++ load_meta_calls evs2.
Proof. apply omap_app. Qed.

Lemma load_meta_calls_db (evs : list event) :
  Forall db_event evs → load_meta_calls evs = [].
Proof.
  induction 1 as [|e evs He _ IH]; [done|].
  unfold load_meta_calls in *. by destruct e.
Qed.

(** The effects of [_load_attachment_meta] are those of the snapshot and of
    the query on it. *)
Lemma load_attachment_meta_trace (cfg : config) (w : world) (keys : list string)
    (st : state) :
  ∃ evs, trace (_load_attachment_meta cfg w keys st).2 = trace st ++ evs ∧
         Forall db_event evs.
Proof.
  unfold _load_attachment_meta.
  destruct (List.filter Str.nonempty keys) as [|k ks].
  { exists []. by rewrite app_nil_r. }
  unfold bind at 1. rewrite create_db_snapshot_run.
  unfold try_finally, query_snapshot, release_snapshot, bind, log, lift, unlink, raise, ret.
  destruct (sqlite_backup w _ _) as [err|]; [destruct (copy2 w _ _) as [exc|]|]; simpl.
  - eexists. rewrite <- !app_assoc. split; [done|]. by repeat constructor.
  - destruct (sqlite_connect w _) as [exc|]; simpl;
      [|destruct (sqlite_fetchall w _ _) as [rows|e]; simpl];
      (eexists; rewrite <- !app_assoc; split; [done|]; by repeat constructor).
  - destruct (sqlite_connect w _) as [exc|]; simpl;
      [|destruct (sqlite_fetchall w _ _) as [rows|e]; simpl];
      (eexists; rewrite <- !app_assoc; split; [done|]; by repeat constructor).
Qed.

#[local] Arguments load_meta_calls : simpl never.

Lemma fuse_load_meta_calls (cfg : config) (w : world) (raw_results : list hit) (st : state) :
  load_meta_calls (trace (fuse cfg w raw_results st).2) =
    load_meta_calls (trace st) ++
      match unique_results (SEMANTIC_MAX_DOCS cfg) raw_results with
      | [] => []
      | unique => [attachment_keys unique]
      end.
Proof.
  unfold fuse.
  destruct (unique_results (SEMANTIC_MAX_DOCS cfg) raw_results) as [|h unique].
  { simpl. by rewrite app_nil_r. }
  set (keys := attachment_keys (h :: unique)).
  unfold bind at 1. unfold log at 1.
  set (st1 := {| files := files st; trace := trace st ++ [EvLoadMeta keys] |}).
  destruct (load_attachment_meta_trace cfg w keys st1) as (evs & Htrace & Hdb).
  unfold bind, lift.
  destruct (_load_attachment_meta cfg w keys st1) as [[meta_by_key|e] st2];
    simpl in Htrace |- *; rewrite Htrace, !load_meta_calls_app;
    rewrite (load_meta_calls_db evs Hdb); by rewrite app_nil_r.
Qed.

Lemma first_nonempty_cons (s : string) (rest : list string) :
  first_nonempty (s :: rest) = Str.or_else s (first_nonempty rest).
Proof. unfold first_nonempty, Str.or_else. simpl. by destruct (Str.nonempty s). Qed.

Lemma or_else_empty_r (s : string) : Str.or_else s "" = s.
Proof. by destruct s. Qed.

(** C5, as the code has it. The identifier of a surviving hit is the first
    non-empty of its [docId] without the surrounding whitespace, the stem of
    the file name of its trimmed [sourcePath], and the trimmed
    attachment-key field of the sidecar file, in that order. When there are
    results, the metadata joiner is called once, with the identifiers that
    the first two sources give, in rank order; every identifier that comes
    from the [docId] or from the stem is in that batch. When there are no
    results it is not called. *)
Theorem identifiers_and_batch (cfg : config) (w : world) (query : string)
    (raw_results : list hit) (st : state) :
  search_returns cfg w query raw_results →
  let unique := unique_results (SEMANTIC_MAX_DOCS cfg) raw_results in
  (∀ h md_meta, h ∈ unique →
     attachment_key_of h md_meta =
       first_nonempty
         [ Str.strip (doc_id h);
           Path.stem (Path.of_string (Str.strip (source_path h)));
           Str.strip (MdMeta.get MdMeta.attachment_key md_meta) ]) ∧
  load_meta_calls (trace (_build_semantic_items cfg w query st).2) =
    load_meta_calls (trace st) ++
      match unique with
      | [] => []
      | _ =>
          [List.filter Str.nonempty
             (map (fun h => first_nonempty
                              [ Str.strip (doc_id h);
                                Path.stem (Path.of_string (Str.strip (source_path h))) ])
                  unique)]
      end ∧
  (∀ h, h ∈ unique → primary_key h ≠ "" → primary_key h ∈ attachment_keys unique).
Proof.
  intros Hsearch unique.
  assert (∀ h, primary_key h =
               first_nonempty [ Str.strip (doc_id h);
                                Path.stem (Path.of_string (Str.strip (source_path h))) ])
    as Hprimary.
  { intros h. rewrite !first_nonempty_cons. unfold primary_key, hit_source.
    f_equal. change (first_nonempty []) with "". by rewrite or_else_empty_r. }
  split; [|split].
  - intros h md_meta _. unfold attachment_key_of.
    rewrite Hprimary, !first_nonempty_cons.
    change (first_nonempty []) with "". rewrite !or_else_empty_r.
    unfold Str.or_else.
    destruct (Str.nonempty (Str.strip (doc_id h))) eqn:Hdoc; [by rewrite Hdoc|done].
  - rewrite (build_semantic_items_fuse _ _ _ _ _ Hsearch), fuse_load_meta_calls.
    fold unique. destruct unique as [|h rest]; [done|].
    unfold attachment_keys. do 3 f_equal.
    apply map_ext. intros; apply Hprimary.
  - intros h Hin Hne. unfold attachment_keys.
    apply list_elem_of_In, filter_In. split.
    + apply list_elem_of_In. by apply list_elem_of_fmap_2.
    + by apply nonempty_true.
Qed.

Lemma identifiers_and_batch_witness :
  search_returns config_local world_pdf_from_sidecar "attention" [hit_K1] ∧
  load_meta_calls
    (trace (_build_semantic_items config_local world_pdf_from_sidecar "attention"
              state_empty).2) = [["K1"]].
Proof.
  assert (search_returns config_local world_pdf_from_sidecar "attention" [hit_K1]) as H.
  { split; [reflexivity|]. by exists None. }
  split; [exact H|].
  destruct (identifiers_and_batch config_local world_pdf_from_sidecar "attention"
              [hit_K1] state_empty H) as (_ & Hcalls & _).
  rewrite Hcalls. reflexivity.
Defined.

(** C5 as worded, on the [docId] as the collaborator gave it: a [docId] of
    two spaces is not empty, yet the identifier of the hit is the stem of
    its path. *)
Lemma identifiers_as_worded_fails :
  ¬ identifiers_as_worded (unique_results 8 [hit_blank_doc_id]).
Proof.
  intros H. specialize (H hit_blank_doc_id MdMeta.empty).
  assert (hit_blank_doc_id ∈ unique_results 8 [hit_blank_doc_id]) as Hin by left.
  specialize (H Hin). vm_compute in H. discriminate H.
Qed.

(** ** The sidecar file *)

Lemma parse_lines_first_40 (lines more : list string) :
  (40 <= List.length lines)%nat → parse_lines (lines ++ more) = parse_lines lines.
Proof.
  intros Hlen. unfold parse_lines. by rewrite take_app_le.
Qed.

Lemma scan_lines_stops (lines more : list string) :
  ∀ output, MdMeta.complete output = false →
    MdMeta.complete (scan_lines output lines) = true →
    scan_lines output (lines ++ more) = scan_lines output lines.
Proof.
  induction lines as [|line lines IH]; intros output Hstart Hdone; simpl in *.
  - congruence.
  - destruct (MdMeta.complete (scan_line output line)) eqn:Hline; [done|].
    by apply IH.
Qed.

Lemma md_meta_of_read (w : world) (h : hit) (text : string) :
  hit_source h ≠ "" →
  exists_ w (Path.to_string (Path.of_string (hit_source h))) = Ok true →
  read_text w (Path.to_string (Path.of_string (hit_source h))) = Ok text →
  md_meta_of w h = Ok (parse_lines (splitlines text)).
Proof.
  intros Hne Hexists Hread. unfold md_meta_of, _parse_md_meta.
  apply nonempty_true in Hne. by rewrite Hne, Hexists, Hread.
Qed.

(** A hit gives two items. *)
Lemma hit_items_two (w : world) (meta_by_key : gmap string Meta.t) (rank : nat)
    (h : hit) (md_meta : MdMeta.t) :
  ∃ full zotero, hit_items w meta_by_key rank h md_meta = [full; zotero].
Proof. unfold hit_items, items_of_hit. by eexists _, _. Qed.

(** The items of the results, hit by hit: each hit has its sidecar
    metadata parsed, and its two items are built from them. *)
Lemma build_items_at (w : world) (meta_by_key : gmap string Meta.t) (unique : list hit) :
  ∀ rank items, build_items w meta_by_key rank unique = Ok items →
    ∀ i h, unique !! i = Some h →
      ∃ md_meta, md_meta_of w h = Ok md_meta ∧
        items_at items i = hit_items w meta_by_key (rank + i) h md_meta.
Proof.
  induction unique as [|h0 unique IH]; intros rank items; cbn [build_items]; [done|].
  destruct (md_meta_of w h0) as [md0|e] eqn:Hmd; [|done].
  destruct (build_items w meta_by_key (S rank) unique) as [rest|e] eqn:Hrest; [|done].
  destruct (hit_items_two w meta_by_key rank h0 md0) as (full & zotero & Htwo).
  rewrite Htwo. intros [= <-] i h Hi.
  destruct i as [|i].
  - injection Hi as <-. exists md0. split; [done|].
    rewrite Nat.add_0_r, Htwo. reflexivity.
  - destruct (IH _ _ Hrest i h Hi) as (md & Hparse & Hitems).
    exists md. split; [done|].
    replace (rank + S i)%nat with (S rank + i)%nat by lia. rewrite <- Hitems.
    unfold items_at. replace (2 * S i)%nat with (S (S (2 * i))) by lia. reflexivity.
Qed.

(** A sidecar file that cannot be decoded fails the whole answer. *)
Lemma build_items_parse_raises (w : world) (meta_by_key : gmap string Meta.t)
    (unique : list hit) (h : hit) (e : exn) :
  h ∈ unique → md_meta_of w h = Raise e →
  ∀ rank, ∃ e', build_items w meta_by_key rank unique = Raise e'.
Proof.
  intros Hin Hraise. induction unique as [|h0 unique IH]; intros rank.
  { by apply elem_of_nil in Hin. }
  cbn [build_items]. apply elem_of_cons in Hin as [<-|Hin].
  - rewrite Hraise. by eexists.
  - destruct (md_meta_of w h0) as [md0|e0]; [|by eexists].
    destruct (IH Hin (S rank)) as [e' ->]. by eexists.
Qed.

Lemma attachment_key_of_share (meta_by_key : gmap string Meta.t) (h : hit)
    (md_meta : MdMeta.t) :
  attachment_key_of h (sidecar_share meta_by_key h md_meta) = attachment_key_of h md_meta.
Proof.
  unfold attachment_key_of, sidecar_share, Str.or_else.
  cbn [MdMeta.get MdMeta.attachment_key]. by destruct (Str.nonempty (primary_key h)).
Qed.

Lemma pdf_path_of_share (meta_by_key : gmap string Meta.t) (h : hit) (md_meta : MdMeta.t) :
  pdf_path_of (meta_by_key !! attachment_key_of h md_meta)
    (sidecar_share meta_by_key h md_meta) =
  pdf_path_of (meta_by_key !! attachment_key_of h md_meta) md_meta.
Proof.
  unfold pdf_path_of, sidecar_share, joined_pdf_path, Str.or_else.
  cbn [MdMeta.get MdMeta.source_pdf].
  by destruct (Str.nonempty (Str.strip (Meta.get Meta.pdf_path _))).
Qed.

Lemma zotero_url_of_share (meta_by_key : gmap string Meta.t) (h : hit) (md_meta : MdMeta.t) :
  zotero_url_of (attachment_key_of h md_meta) (sidecar_share meta_by_key h md_meta) =
  zotero_url_of (attachment_key_of h md_meta) md_meta.
Proof.
  unfold zotero_url_of, sidecar_share. cbn [MdMeta.get MdMeta.zotero_link].
  by destruct (Str.nonempty (attachment_key_of h md_meta)).
Qed.

(** The items of a hit depend on its sidecar metadata through
    [sidecar_share] only. *)
Lemma hit_items_sidecar_share (w : world) (meta_by_key : gmap string Meta.t)
    (rank : nat) (h : hit) (md_meta : MdMeta.t) :
  hit_items w meta_by_key rank h md_meta =
    hit_items w meta_by_key rank h (sidecar_share meta_by_key h md_meta).
Proof.
  unfold hit_items. rewrite attachment_key_of_share. unfold items_of_hit.
  by rewrite pdf_path_of_share, zotero_url_of_share.
Qed.

(** Without a PDF path from the joiner, the path of the document is the
    source named in the sidecar file. *)
Lemma hit_items_source_pdf (w : world) (meta_by_key : gmap string Meta.t)
    (rank : nat) (h : hit) (md_meta : MdMeta.t) (source : string) :
  joined_pdf_path meta_by_key h md_meta = "" →
  MdMeta.source_pdf md_meta = Some source →
  Str.strip source ≠ "" →
  ∃ full zotero,
    hit_items w meta_by_key rank h md_meta = [full; zotero] ∧
    Item.path full = Some (Str.strip source).
Proof.
  intros Hjoined Hsource Hne. unfold hit_items, items_of_hit.
  assert (pdf_path_of (meta_by_key !! attachment_key_of h md_meta) md_meta
          = Str.strip source) as ->.
  { unfold pdf_path_of, MdMeta.get. unfold joined_pdf_path in Hjoined.
    by rewrite Hjoined, Hsource. }
  apply nonempty_true in Hne. rewrite Hne. by eexists _, _.
Qed.

(** With an identifier of its own and a PDF path from the joiner, a hit
    takes nothing from its sidecar file. *)
Lemma hit_items_joined (w : world) (meta_by_key : gmap string Meta.t)
    (rank : nat) (h : hit) (md_meta : MdMeta.t) (m : Meta.t) :
  primary_key h ≠ "" →
  meta_by_key !! primary_key h = Some m →
  Str.strip (Meta.pdf_path m) ≠ "" →
  hit_items w meta_by_key rank h md_meta = hit_items w meta_by_key rank h MdMeta.empty.
Proof.
  intros Hkey Hm Hpdf. apply nonempty_true in Hkey, Hpdf.
  assert (∀ md, sidecar_share meta_by_key h md = MdMeta.empty) as Hnone.
  { intros md. unfold sidecar_share, joined_pdf_path, attachment_key_of, Str.or_else.
    rewrite Hkey, Hm. cbn [Meta.get]. by rewrite Hpdf, Hkey. }
  by rewrite (hit_items_sidecar_share _ _ _ _ md_meta),
    (hit_items_sidecar_share _ _ _ _ MdMeta.empty), !Hnone.
Qed.

(** C6, as the code has it. The sidecar file of every result is parsed,
    whatever the joiner returned: the two items of each result are built
    from its parsed sidecar metadata, and a sidecar file whose reading
    raises fails the whole answer. The metadata are those of the first 40
    lines of the file, and the scan stops at the line that completes the
    three fields. The fields are used one by one: the attachment key only
    when neither the [docId] nor the path gives an identifier, the source
    only when the joiner gave no PDF path for the hit (no record, or a
    record with an empty path), the link only when the hit has no
    identifier at all. So the path of the document comes from the sidecar
    file whenever the joiner gave none, also for a hit with a joined
    record; and a hit with an identifier of its own and a PDF path from the
    joiner takes nothing from its sidecar file. *)
Theorem sidecar_parse_and_use (w : world) (meta_by_key : gmap string Meta.t) :
  (∀ rank unique items, build_items w meta_by_key rank unique = Ok items →
     ∀ i h, unique !! i = Some h →
       ∃ md_meta, md_meta_of w h = Ok md_meta ∧
         items_at items i = hit_items w meta_by_key (rank + i) h md_meta) ∧
  (∀ rank unique h e, h ∈ unique → md_meta_of w h = Raise e →
     ∃ e', build_items w meta_by_key rank unique = Raise e') ∧
  (∀ h text, hit_source h ≠ "" →
     exists_ w (Path.to_string (Path.of_string (hit_source h))) = Ok true →
     read_text w (Path.to_string (Path.of_string (hit_source h))) = Ok text →
     md_meta_of w h = Ok (parse_lines (splitlines text))) ∧
  (∀ lines more, (40 <= List.length lines)%nat →
     parse_lines (lines ++ more) = parse_lines lines) ∧
  (∀ lines more,
     MdMeta.complete (scan_lines MdMeta.empty lines) = true →
     scan_lines MdMeta.empty (lines ++ more) = scan_lines MdMeta.empty lines) ∧
  (∀ rank h md_meta,
     hit_items w meta_by_key rank h md_meta =
       hit_items w meta_by_key rank h (sidecar_share meta_by_key h md_meta)) ∧
  (∀ rank h md_meta source,
     joined_pdf_path meta_by_key h md_meta = "" →
     MdMeta.source_pdf md_meta = Some source →
     Str.strip source ≠ "" →
     ∃ full zotero,
       hit_items w meta_by_key rank h md_meta = [full; zotero] ∧
       Item.path full = Some (Str.strip source)) ∧
  (∀ rank h md_meta m,
     primary_key h ≠ "" →
     meta_by_key !! primary_key h = Some m →
     Str.strip (Meta.pdf_path m) ≠ "" →
     hit_items w meta_by_key rank h md_meta =
       hit_items w meta_by_key rank h MdMeta.empty).
Proof.
  split; [|split; [|split; [|split; [|split; [|split; [|split]]]]]].
  - intros rank unique. apply build_items_at.
  - intros rank unique h e Hin Hraise. by eapply build_items_parse_raises.
  - apply md_meta_of_read.
  - apply parse_lines_first_40.
  - intros lines more. by apply scan_lines_stops.
  - apply hit_items_sidecar_share.
  - apply hit_items_source_pdf.
  - apply hit_items_joined.
Qed.

Lemma sidecar_parse_and_use_witness :
  md_meta_of world_pdf_from_sidecar hit_K1 =
    Ok {| MdMeta.attachment_key := Some "K1";
          MdMeta.source_pdf := Some "/pdfs/paper.pdf";
          MdMeta.zotero_link := Some "zotero://select/library/items/K1" |} ∧
  ∃ full zotero,
    hit_items world_pdf_from_sidecar meta_K1 1 hit_K1
      {| MdMeta.attachment_key := Some "K1";
         MdMeta.source_pdf := Some "/pdfs/paper.pdf";
         MdMeta.zotero_link := Some "zotero://select/library/items/K1" |} = [full; zotero] ∧
    Item.path full = Some "/pdfs/paper.pdf".
Proof.
  destruct (sidecar_parse_and_use world_pdf_from_sidecar meta_K1)
    as (_ & _ & Hparse & _ & _ & _ & Hsource & _).
  split.
  - apply (Hparse hit_K1 "- Attachment Key: K1
- Source PDF: /pdfs/paper.pdf
- Zotero Link: zotero://select/library/items/K1"); [discriminate|reflexivity|reflexivity].
  - apply (Hsource 1%nat hit_K1 _ "/pdfs/paper.pdf"); [reflexivity|reflexivity|discriminate].
Defined.

(** C6 as worded: the joiner returns a record for [K1] whose PDF path is
    empty, and the items of the hit differ from those it would have
    without its sidecar file, which supplies the path. *)
Lemma sidecar_only_without_join_fails :
  (_load_attachment_meta config_local world_pdf_from_sidecar ["K1"] state_empty).1
    = Ok meta_K1 ∧
  ¬ sidecar_only_without_join world_pdf_from_sidecar meta_K1 1 hit_K1.
Proof.
  split; [vm_compute; reflexivity|].
  intros H.
  specialize (H (parse_lines
    [ "- Attachment Key: K1"; "- Source PDF: /pdfs/paper.pdf";
      "- Zotero Link: zotero://select/library/items/K1" ])).
  assert (is_Some (meta_K1 !! "K1")) as Hjoin by (by eexists).
  specialize (H eq_refl Hjoin). vm_compute in H. discriminate H.
Qed.

(** * Further properties of the script *)

(** ** Whitespace *)

Lemma lstrip_head (s : string) (c : ascii) (s' : string) :
  Str.lstrip s = String c s' → Str.is_space c = false.
Proof.
  induction s as [|a s IH]; simpl; [done|].
  destruct (Str.is_space a) eqn:Ha; [done|]. by intros [= <- _].
Qed.

Lemma lstrip_fixed (c : ascii) (s : string) :
  Str.is_space c = false → Str.lstrip (String c s) = String c s.
Proof. intros H. simpl. by rewrite H. Qed.

Lemma rstrip_idem (s : string) : Str.rstrip (Str.rstrip s) = Str.rstrip s.
Proof.
  induction s as [|c s IH]; simpl; [done|].
  destruct (Str.rstrip s) as [|c' r] eqn:Hr.
  - destruct (Str.is_space c) eqn:Hc; simpl; [done|]. by rewrite Hc.
  - simpl in *. by rewrite IH.
Qed.

Lemma rstrip_head (c : ascii) (s : string) :
  Str.is_space c = false → ∃ r, Str.rstrip (String c s) = String c r.
Proof.
  intros Hc. simpl. destruct (Str.rstrip s) as [|c' r]; rewrite ?Hc; by eexists.
Qed.

(** The last character of a string that [rstrip] leaves is not whitespace. *)
Lemma rstrip_last (s : string) (c : ascii) :
  last_char (Str.rstrip s) = Some c → Str.is_space c = false.
Proof.
  induction s as [|a s IH]; simpl; [done|].
  destruct (Str.rstrip s) as [|c' r] eqn:Hr.
  - destruct (Str.is_space a) eqn:Ha; simpl; [done|]. by intros [= <-].
  - simpl in *. exact IH.
Qed.

Lemma strip_idem (s : string) : Str.strip (Str.strip s) = Str.strip s.
Proof.
  unfold Str.strip. destruct (Str.lstrip s) as [|c t] eqn:Hl; [done|].
  pose proof (lstrip_head _ _ _ Hl) as Hc.
  destruct (rstrip_head c t Hc) as [r Hr]. rewrite Hr.
  rewrite (lstrip_fixed c r Hc), <- Hr. apply rstrip_idem.
Qed.

Lemma strip_trimmed (s : string) : trimmed (Str.strip s).
Proof. apply strip_idem. Qed.

Lemma strip_head (s : string) (c : ascii) (s' : string) :
  Str.strip s = String c s' → Str.is_space c = false.
Proof.
  unfold Str.strip. destruct (Str.lstrip s) as [|a t] eqn:Hl; [done|].
  pose proof (lstrip_head _ _ _ Hl) as Ha.
  destruct (rstrip_head a t Ha) as [r Hr]. rewrite Hr. by intros [= <- _].
Qed.

Lemma strip_last (s : string) (c : ascii) :
  last_char (Str.strip s) = Some c → Str.is_space c = false.
Proof. apply rstrip_last. Qed.

(** A string that ends with a character other than whitespace keeps
    something when stripped. *)
Lemma strip_nonempty_of_last (s : string) (c : ascii) :
  last_char s = Some c → Str.is_space c = false → Str.strip s ≠ "".
Proof.
  unfold Str.strip. induction s as [|a s IH]; [done|].
  intros Hlast Hc. destruct s as [|b s].
  - injection Hlast as ->. cbn [Str.lstrip Str.rstrip]. rewrite Hc.
    cbn [Str.rstrip]. by rewrite Hc.
  - specialize (IH Hlast Hc). change (last_char (String a (String b s))) with
      (last_char (String b s)) in Hlast.
    cbn [Str.lstrip]. destruct (Str.is_space a) eqn:Ha; [exact IH|].
    destruct (rstrip_head a (String b s) Ha) as [r ->]. done.
Qed.

Lemma last_char_drop (n : nat) (s : string) (c : ascii) :
  Str.drop n s ≠ "" → last_char s = Some c → last_char (Str.drop n s) = Some c.
Proof.
  revert s. induction n as [|n IH]; intros s Hne Hlast; [done|].
  destruct s as [|a s]; [done|]. simpl in *.
  apply IH; [done|]. destruct s; [by destruct n | exact Hlast].
Qed.

Lemma last_char_Some (s : string) : s ≠ "" → ∃ c, last_char s = Some c.
Proof.
  induction s as [|a s IH]; [done|]. intros _.
  destruct s as [|b s]; [by exists a|]. apply IH. done.
Qed.

(** ** The sidecar fields *)

(** A value read after a label is never empty and has no whitespace
    around it. *)
Lemma match_label_value (label line value : string) :
  match_label label line = Some value → value ≠ "" ∧ trimmed value.
Proof.
  unfold match_label. destruct (Str.startswith label (Str.strip line)); [|done].
  destruct (Str.nonempty (Str.drop _ _)) eqn:Hrest; [|done].
  intros [= <-]. split; [|apply strip_trimmed].
  apply nonempty_true in Hrest.
  destruct (last_char_Some (Str.strip line)) as [c Hc].
  { intros Hs. rewrite Hs in Hrest. by destruct (String.length label). }
  eapply strip_nonempty_of_last.
  - by apply last_char_drop.
  - by apply strip_last in Hc.
Qed.

Lemma scan_line_attachment_key (o : MdMeta.t) (line : string) :
  MdMeta.attachment_key (scan_line o line) =
    match match_label "- Attachment Key:" line with
    | Some v => Some v
    | None => MdMeta.attachment_key o
    end.
Proof.
  unfold scan_line.
  destruct (match_label "- Attachment Key:" line),
    (match_label "- Source PDF:" line), (match_label "- Zotero Link:" line); done.
Qed.

Lemma scan_line_source_pdf (o : MdMeta.t) (line : string) :
  MdMeta.source_pdf (scan_line o line) =
    match match_label "- Source PDF:" line with
    | Some v => Some v
    | None => MdMeta.source_pdf o
    end.
Proof.
  unfold scan_line.
  destruct (match_label "- Attachment Key:" line),
    (match_label "- Source PDF:" line), (match_label "- Zotero Link:" line); done.
Qed.

Lemma scan_line_zotero_link (o : MdMeta.t) (line : string) :
  MdMeta.zotero_link (scan_line o line) =
    match match_label "- Zotero Link:" line with
    | Some v => Some v
    | None => MdMeta.zotero_link o
    end.
Proof.
  unfold scan_line.
  destruct (match_label "- Attachment Key:" line),
    (match_label "- Source PDF:" line), (match_label "- Zotero Link:" line); done.
Qed.

(** A field of the scanned metadata was there before or was read from one
    of the lines. *)
Lemma scan_lines_field (field : MdMeta.t -> option string) (label : string) :
  (∀ o line, field (scan_line o line) =
     match match_label label line with Some v => Some v | None => field o end) →
  ∀ lines o v, field (scan_lines o lines) = Some v →
    field o = Some v ∨ ∃ line, line ∈ lines ∧ match_label label line = Some v.
Proof.
  intros Hstep lines. induction lines as [|line lines IH]; intros o v; simpl; [by left|].
  assert (field (scan_line o line) = Some v →
          field o = Some v ∨ ∃ l, l ∈ line :: lines ∧ match_label label l = Some v) as Hhere.
  { rewrite Hstep. destruct (match_label label line) as [v'|] eqn:Hm; [|by left].
    intros [= ->]. right. exists line. split; [left|done]. }
  destruct (MdMeta.complete (scan_line o line)); [exact Hhere|].
  intros Hv. destruct (IH _ _ Hv) as [Hbefore|(l & Hin & Hl)]; [by apply Hhere|].
  right. exists l. split; [by right|done].
Qed.

Lemma parsed_field (field : MdMeta.t -> option string) (label : string)
    (lines : list string) (value : string) :
  (∀ o line, field (scan_line o line) =
     match match_label label line with Some v => Some v | None => field o end) →
  field MdMeta.empty = None →
  field (parse_lines lines) = Some value →
  value ≠ "" ∧ trimmed value ∧
  ∃ line, line ∈ take 40 lines ∧ match_label label line = Some value.
Proof.
  intros Hstep Hempty Hv. unfold parse_lines in Hv.
  apply (scan_lines_field field label Hstep) in Hv as [Hv|(line & Hin & Hl)];
    [congruence|].
  destruct (match_label_value _ _ _ Hl) as [Hne Htrim].
  split; [done|]. split; [done|]. by exists line.
Qed.

(** X1. Every field [_parse_md_meta] reports comes from a line among the
    first 40 that carries the label of the field, and is what follows the
    label there, without the surrounding whitespace; it is never empty. *)
Theorem parsed_fields_from_labelled_lines (lines : list string) (value : string) :
  (MdMeta.attachment_key (parse_lines lines) = Some value →
     value ≠ "" ∧ trimmed value ∧
     ∃ line, line ∈ take 40 lines ∧ match_label "- Attachment Key:" line = Some value) ∧
  (MdMeta.source_pdf (parse_lines lines) = Some value →
     value ≠ "" ∧ trimmed value ∧
     ∃ line, line ∈ take 40 lines ∧ match_label "- Source PDF:" line = Some value) ∧
  (MdMeta.zotero_link (parse_lines lines) = Some value →
     value ≠ "" ∧ trimmed value ∧
     ∃ line, line ∈ take 40 lines ∧ match_label "- Zotero Link:" line = Some value).
Proof.
  split; [|split].
  - by apply parsed_field; [apply scan_line_attachment_key|].
  - by apply parsed_field; [apply scan_line_source_pdf|].
  - by apply parsed_field; [apply scan_line_zotero_link|].
Qed.

(** ** Quotes and the key of the shell files *)

Lemma last_char_snoc (s : string) (c : ascii) :
  last_char (s +:+ String c "") = Some c.
Proof.
  induction s as [|a s IH]; [done|].
  change (String a s +:+ String c "") with (String a (s +:+ String c "")).
  cbn [last_char]. destruct (s +:+ String c "") eqn:Hs; [|exact IH].
  by destruct s.
Qed.

Lemma length_snoc (s : string) (c : ascii) :
  String.length (s +:+ String c "") = S (String.length s).
Proof. induction s as [|a s IH]; simpl; [done|]. by f_equal. Qed.

Lemma substring_prefix (s t : string) :
  String.substring 0 (String.length s) (s +:+ t) = s.
Proof.
  induction s as [|a s IH]; simpl.
  - by destruct t.
  - by f_equal.
Qed.

Lemma init_last (c : ascii) (rest : string) (c0 : ascii) :
  last_char (String c rest) = Some c0 →
  String c rest = String.substring 0 (String.length rest) (String c rest) +:+ String c0 "".
Proof.
  revert c. induction rest as [|b rest IH]; intros c Hlast.
  - injection Hlast as ->. done.
  - change (last_char (String c (String b rest))) with (last_char (String b rest)) in Hlast.
    cbn [String.length String.substring].
    change (String c ?x +:+ ?y) with (String c (x +:+ y)).
    f_equal. by apply IH.
Qed.

(** X2. [_strip_quotes] undoes one layer of quoting: a string put between
    two single or two double quotes comes back as it was. Any other result
    is the argument itself: a string is only changed when it is such a
    quotation. *)
Theorem strip_quotes_round_trip (q : ascii) (s value : string) :
  (is_quote q = true → _strip_quotes (String q (s +:+ String q "")) = s) ∧
  (_strip_quotes value = value ∨
   ∃ q', is_quote q' = true ∧
         value = String q' (_strip_quotes value +:+ String q' "")).
Proof.
  split.
  - intros Hq. unfold _strip_quotes.
    assert (last_char (String q (s +:+ String q "")) = Some q) as ->.
    { cbn [last_char]. destruct (s +:+ String q "") eqn:Hs; [by destruct s|].
      rewrite <- Hs. apply last_char_snoc. }
    cbn [String.length]. rewrite length_snoc, Ascii.eqb_refl, Hq.
    cbn [Nat.leb andb Nat.sub String.substring]. rewrite Nat.sub_0_r.
    apply substring_prefix.
  - unfold _strip_quotes. destruct value as [|c0 rest]; [by left|].
    destruct (last_char (String c0 rest)) as [c1|] eqn:Hlast; [|by left].
    destruct (_ && _ && _) eqn:Hcond; [|by left].
    apply andb_true_iff in Hcond as [Hcond Hq].
    apply andb_true_iff in Hcond as [Hlen Heq].
    apply Ascii.eqb_eq in Heq as <-. right. exists c0. split; [done|].
    cbn [String.length] in *. apply Nat.leb_le in Hlen.
    cbn [Nat.sub String.substring]. f_equal.
    destruct rest as [|c rest]; [simpl in Hlen; lia|].
    change (last_char (String c0 (String c rest))) with (last_char (String c rest)) in Hlast.
    cbn [String.length Nat.sub]. rewrite Nat.sub_0_r. by apply init_last.
Qed.

Lemma key_in_lines_Some (lines : list string) (raw : string) :
  key_in_lines lines = Some raw →
  raw ≠ "" ∧ Str.startswith "$" raw = false ∧
  ∃ line value, line ∈ lines ∧ match_export line = Some value ∧ raw = _strip_quotes value.
Proof.
  induction lines as [|line lines IH]; simpl; [done|].
  assert (key_in_lines lines = Some raw →
          raw ≠ "" ∧ Str.startswith "$" raw = false ∧
          ∃ l value, l ∈ line :: lines ∧ match_export l = Some value ∧
                     raw = _strip_quotes value) as Hrest.
  { intros H. destruct (IH H) as (Hne & Hd & l & value & Hin & Hm & Hraw).
    split; [done|]. split; [done|]. exists l, value. split; [by right|done]. }
  destruct (match_export line) as [value|] eqn:Hm; [|exact Hrest].
  destruct (negb (Str.nonempty (_strip_quotes value)) || _) eqn:Hskip; [exact Hrest|].
  intros [= <-]. apply orb_false_iff in Hskip as [Hne Hd].
  apply negb_false_iff, nonempty_true in Hne.
  split; [done|]. split; [done|]. exists line, value. split; [left|done].
Qed.

Lemma key_in_files_Ok (w : world) (shell_files : list Path.t) (key : string) :
  key_in_files w shell_files = Ok key →
  key = "" ∨
  key ≠ "" ∧ Str.startswith "$" key = false ∧
  ∃ file_path text line value,
    file_path ∈ shell_files ∧
    read_text w (Path.to_string file_path) = Ok text ∧
    line ∈ splitlines text ∧ match_export line = Some value ∧
    key = _strip_quotes value.
Proof.
  induction shell_files as [|f files IH]; simpl.
  { intros [= <-]. by left. }
  assert (key_in_files w files = Ok key →
          key = "" ∨
          key ≠ "" ∧ Str.startswith "$" key = false ∧
          ∃ file_path text line value,
            file_path ∈ f :: files ∧
            read_text w (Path.to_string file_path) = Ok text ∧
            line ∈ splitlines text ∧ match_export line = Some value ∧
            key = _strip_quotes value) as Hrest.
  { intros H. destruct (IH H) as [?|(Hne & Hd & g & text & line & value & Hin & Hrest)];
      [by left|].
    right. split; [done|]. split; [done|]. exists g, text, line, value.
    split; [by right|done]. }
  destruct (exists_ w (Path.to_string f)) as [[|]|e0]; cbn [and_then]; [|exact Hrest|done].
  destruct (read_text w (Path.to_string f)) as [text|e] eqn:Hread.
  - destruct (key_in_lines (splitlines text)) as [raw|] eqn:Hkey; [|exact Hrest].
    intros [= <-]. apply key_in_lines_Some in Hkey as (Hne & Hd & line & value & Hin & Hm & Hraw).
    right. split; [done|]. split; [done|]. exists f, text, line, value.
    split; [left|done].
  - by destruct e.
Qed.

(** X3. What [_resolve_api_key] returns. If the environment variable holds
    more than whitespace, its trimmed value, and no file is read. Otherwise
    either the empty string, or a key that is not empty, does not start
    with a dollar sign (a reference to a shell variable is skipped) and is
    the unquoted value of an [export OPENROUTER_API_KEY=...] line of one of
    [.zshrc], [.zprofile] and [.zshenv] in the home directory. *)
Theorem resolve_api_key_result (w : world) (getenv_key : string) (home : Path.t)
    (key : string) :
  _resolve_api_key w getenv_key home = Ok key →
  (Str.strip getenv_key ≠ "" ∧ key = Str.strip getenv_key) ∨
  (Str.strip getenv_key = "" ∧ key = "") ∨
  (Str.strip getenv_key = "" ∧ key ≠ "" ∧ Str.startswith "$" key = false ∧
   ∃ name text line value,
     name ∈ [".zshrc"; ".zprofile"; ".zshenv"] ∧
     read_text w (Path.to_string (Path.join home name)) = Ok text ∧
     line ∈ splitlines text ∧ match_export line = Some value ∧
     key = _strip_quotes value).
Proof.
  unfold _resolve_api_key.
  destruct (Str.nonempty (Str.strip getenv_key)) eqn:Henv.
  - intros [= <-]. left. split; [by apply nonempty_true|done].
  - apply nonempty_false in Henv. intros Hfiles. right.
    apply key_in_files_Ok in Hfiles
      as [->|(Hne & Hd & f & text & line & value & Hin & Hread & Hline & Hm & Hkey)];
      [by left|].
    right. split; [done|]. split; [done|]. split; [done|].
    assert (∃ name, name ∈ [".zshrc"; ".zprofile"; ".zshenv"] ∧ f = Path.join home name)
      as (name & Hname & ->).
    { rewrite !elem_of_cons in Hin. destruct Hin as [->|[->|[->|Hin]]].
      - exists ".zshrc". split; [left|done].
      - exists ".zprofile". split; [right; left|done].
      - exists ".zshenv". split; [right; right; left|done].
      - by apply elem_of_nil in Hin. }
    by exists name, text, line, value.
Qed.

Lemma resolve_api_key_result_witness :
  _resolve_api_key world_zshrc "  " (Path.of_string "/Users/justin") = Ok "sk-or-v1-abc" ∧
  Str.startswith "$" "sk-or-v1-abc" = false.
Proof.
  assert (_resolve_api_key world_zshrc "  " (Path.of_string "/Users/justin")
          = Ok "sk-or-v1-abc") as H by (vm_compute; reflexivity).
  split; [exact H|].
  destruct (resolve_api_key_result _ _ _ _ H) as [[Hne _]|[[_ Hk]|(_ & _ & Hd & _)]].
  - exfalso. apply Hne. reflexivity.
  - discriminate Hk.
  - exact Hd.
Defined.

(** ** The configuration file *)

Lemma require_table_Ok (data : list (string * toml_item)) (key : string)
    (table : list (string * toml_value)) :
  _require_table data key = Ok table → dict_get data key = Some (TTable table).
Proof.
  unfold _require_table. destruct (dict_get data key) as [[t|]|]; [|done..].
  by intros [= ->].
Qed.

Lemma require_str_Ok (table : list (string * toml_value)) (key value : string) :
  _require_str table key = Ok value → str_setting table key value.
Proof.
  unfold _require_str, str_setting.
  destruct (dict_get table key) as [[raw| | |]|]; [|done..].
  destruct (Str.nonempty (Str.strip raw)) eqn:Hne; [|done].
  intros [= <-]. exists raw. split; [done|]. split; [done|]. by apply nonempty_true.
Qed.

Lemma require_int_Ok (table : list (string * toml_value)) (key : string) (n : Z) :
  _require_int table key = Ok n → dict_get table key = Some (TInteger n).
Proof.
  unfold _require_int. destruct (dict_get table key) as [[| | |]|]; [done| |done..].
  by intros [= ->].
Qed.

Lemma require_bool_Ok (table : list (string * toml_value)) (key : string) (b : bool) :
  _require_bool table key = Ok b → dict_get table key = Some (TBool b).
Proof.
  unfold _require_bool. destruct (dict_get table key) as [[| | |]|]; [done|done| |done..].
  by intros [= ->].
Qed.

Lemma require_table_Raise (data : list (string * toml_item)) (key : string) (e : exn) :
  _require_table data key = Raise e → ∃ msg, e = ValueError msg.
Proof.
  unfold _require_table. destruct (dict_get data key) as [[t|]|]; [done|..];
    intros [= <-]; by eexists.
Qed.

Lemma require_str_Raise (table : list (string * toml_value)) (key : string) (e : exn) :
  _require_str table key = Raise e → ∃ msg, e = ValueError msg.
Proof.
  unfold _require_str. destruct (dict_get table key) as [[raw| | |]|];
    [destruct (Str.nonempty (Str.strip raw)); [done|]|..]; intros [= <-]; by eexists.
Qed.

Lemma require_int_Raise (table : list (string * toml_value)) (key : string) (e : exn) :
  _require_int table key = Raise e → ∃ msg, e = ValueError msg.
Proof.
  unfold _require_int. destruct (dict_get table key) as [[| | |]|]; [|done|..];
    intros [= <-]; by eexists.
Qed.

Lemma require_bool_Raise (table : list (string * toml_value)) (key : string) (e : exn) :
  _require_bool table key = Raise e → ∃ msg, e = ValueError msg.
Proof.
  unfold _require_bool. destruct (dict_get table key) as [[| | |]|]; [| |done|..];
    intros [= <-]; by eexists.
Qed.

Ltac load_step H :=
  match type of H with
  | context [and_then ?r _] =>
      let E := fresh "E" in
      destruct r eqn:E; cbn [and_then] in H
  end.

(** X4. A configuration that [_load_config] accepts was read from an
    existing file whose five tables are all there; every string setting is
    the trimmed, non-empty form of a TOML string (so the semantic prefix is
    never empty), every path setting is [_expand_path] of such a string, and
    every number or flag is a TOML integer or boolean of that name. *)
Theorem load_config_accepts (config_path : string) (config_exists : bool)
    (load : toml_load) (_expand_path : string -> string) (s : settings) :
  _load_config config_path config_exists load _expand_path = Ok s →
  config_exists = true ∧
  ∃ data action paths embedding search fzf,
    load = Loaded data ∧
    dict_get data "action" = Some (TTable action) ∧
    dict_get data "paths" = Some (TTable paths) ∧
    dict_get data "embedding" = Some (TTable embedding) ∧
    dict_get data "search" = Some (TTable search) ∧
    dict_get data "fzf" = Some (TTable fzf) ∧
    str_setting action "title" (action_title s) ∧
    path_setting _expand_path paths "semsearch_project" (semsearch_project s) ∧
    path_setting _expand_path paths "db_path" (db_path s) ∧
    path_setting _expand_path paths "faiss_path" (faiss_path s) ∧
    path_setting _expand_path paths "zotero_db_path" (zotero_db_path s) ∧
    path_setting _expand_path paths "zotero_storage_dir" (zotero_storage_dir s) ∧
    dict_get embedding "use_local" = Some (TBool (use_local_embedding s)) ∧
    str_setting embedding "model" (embedding_model s) ∧
    str_setting search "semantic_prefix" (semantic_prefix s) ∧
    dict_get search "top_k" = Some (TInteger (top_k s)) ∧
    dict_get search "semantic_max_docs" = Some (TInteger (semantic_max_docs s)) ∧
    dict_get fzf "enable" = Some (TBool (fzf_enable s)) ∧
    dict_get fzf "max_results" = Some (TInteger (fzf_max_results s)) ∧
    dict_get fzf "max_candidates" = Some (TInteger (fzf_max_candidates s)).
Proof.
  unfold _load_config. destruct config_exists; [|done]. cbn [negb].
  destruct load as [data| |]; [|done..]. intros H.
  do 19 (load_step H; [|discriminate H]).
  injection H as <-. split; [done|].
  repeat match goal with
  | E : _require_table _ _ = Ok _ |- _ => apply require_table_Ok in E
  | E : _require_str _ _ = Ok _ |- _ => apply require_str_Ok in E
  | E : _require_int _ _ = Ok _ |- _ => apply require_int_Ok in E
  | E : _require_bool _ _ = Ok _ |- _ => apply require_bool_Ok in E
  end.
  eexists data, _, _, _, _, _. cbn.
  repeat (split; [first [done | eexists; split; [eassumption|reflexivity]]|]).
  done.
Qed.

(** X5. Whatever is wrong with the configuration file - missing,
    unreadable, not TOML, a table or a key missing or of the wrong type, a
    blank string - [_load_config] raises a [ValueError], the one exception
    [main] turns into an error item. *)
Theorem load_config_rejects (config_path : string) (config_exists : bool)
    (load : toml_load) (_expand_path : string -> string) (e : exn) :
  _load_config config_path config_exists load _expand_path = Raise e →
  ∃ msg, e = ValueError msg.
Proof.
  unfold _load_config. destruct config_exists; cbn [negb];
    [|intros [= <-]; by eexists].
  destruct load as [data|msg|msg]; [|intros [= <-]; by eexists..]. intros H.
  do 19 (load_step H;
         [|injection H as <-;
           first [ eapply require_table_Raise; eassumption
                 | eapply require_str_Raise; eassumption
                 | eapply require_int_Raise; eassumption
                 | eapply require_bool_Raise; eassumption ]]).
  discriminate H.
Qed.

(** ** The keyword search *)

(** The command line of the helper script for a query. *)
Lemma run_fzf_mode_run (cfg : config) (w : world) (fzf_query : string) (st : state) :
  let cmd := FZF_HELPER cfg :: (if Str.nonempty fzf_query then [fzf_query] else []) in
  let ran := {| files := files st; trace := trace st ++ [EvRunHelper cmd] |} in
  _run_fzf_mode cfg w fzf_query st =
    match exists_ w (FZF_HELPER cfg) with
    | Raise e => (Raise e, st)
    | Ok false =>
        (Ok [_item_error "找不到 fzf helper" ("缺少腳本：" +:+ FZF_HELPER cfg)], st)
    | Ok true =>
        match run_helper w cmd with
        | Raise e => (Raise e, ran)
        | Ok proc =>
            if negb (returncode proc =? 0)%Z then
              (Ok [_item_error "fzf 搜尋失敗"
                     (Str.or_else (Str.strip (Str.or_else (stderr proc) (stdout proc)))
                        ("exit code " +:+ pretty (returncode proc)))], ran)
            else if Str.nonempty (Str.strip (stdout proc)) then
              match json_loads w (Str.strip (stdout proc)) with
              | None =>
                  (Ok [_item_error "fzf 回傳格式錯誤" "helper script 輸出不是合法 JSON。"], ran)
              | Some JOther =>
                  (Ok [_item_error "fzf 回傳格式錯誤" "helper script 輸出不是陣列。"], ran)
              | Some (JArray parsed) => (Ok parsed, ran)
              end
            else (Ok [_item_info "No matches" fzf_query], ran)
        end
    end.
Proof.
  intros cmd ran. unfold _run_fzf_mode. fold cmd. unfold bind at 1. unfold lift at 1.
  destruct (exists_ w (FZF_HELPER cfg)) as [[|]|e]; [|done..].
  unfold bind, log, lift, ret. fold ran.
  destruct (run_helper w cmd) as [proc|e]; [|done].
  destruct (negb (returncode proc =? 0)%Z); [done|].
  destruct (Str.nonempty (Str.strip (stdout proc))); [|done].
  by destruct (json_loads w (Str.strip (stdout proc))) as [[parsed|]|].
Qed.


Lemma or_else_nonempty (a b : string) : b ≠ "" → Str.or_else a b ≠ "".
Proof.
  unfold Str.or_else. destruct (Str.nonempty a) eqn:Ha; [|done].
  intros _. by apply nonempty_true.
Qed.

(** X7. When the helper script exits with a status other than 0, the
    keyword search returns exactly one item, marked as an error, whose
    subtitle is never empty: the trimmed standard error if it holds more
    than whitespace, and otherwise a text, at worst the exit code. *)
Theorem run_fzf_mode_failed_helper (cfg : config) (w : world) (fzf_query : string)
    (st : state) (proc : proc) :
  exists_ w (FZF_HELPER cfg) = Ok true →
  run_helper w (FZF_HELPER cfg :: (if Str.nonempty fzf_query then [fzf_query] else []))
    = Ok proc →
  returncode proc ≠ 0%Z →
  ∃ item,
    (_run_fzf_mode cfg w fzf_query st).1 = Ok [item] ∧
    Item.is_error item = true ∧
    Item.subtitle item ≠ "" ∧
    (Str.strip (stderr proc) ≠ "" → Item.subtitle item = Str.strip (stderr proc)).
Proof.
  intros Hexists Hrun Hrc. rewrite run_fzf_mode_run, Hexists, Hrun.
  destruct (Z.eqb_spec (returncode proc) 0) as [|_]; [done|]. cbn [negb fst].
  eexists. split; [done|]. split; [done|]. cbn [_item_error Item.subtitle]. split.
  - by apply or_else_nonempty.
  - intros Herr. unfold Str.or_else at 2.
    destruct (Str.nonempty (stderr proc)) eqn:Hne.
    + unfold Str.or_else. apply nonempty_true in Herr. by rewrite Herr.
    + apply nonempty_false in Hne. by rewrite Hne in Herr.
Qed.

(** ** Before and after the search *)

(** X8. The semantic search stops before the call of [search], without any
    effect, and returns a single item marked as an error, when one of the
    four configured files or directories is missing (and the files tested
    before it are there), when the backend is remote and no API key was
    found, or when the search package cannot be imported. *)
Theorem build_semantic_items_refuses (cfg : config) (w : world) (query : string)
    (st : state) :
  exists_ w (SEMSEARCH_PROJECT cfg) = Ok false ∨
  (exists_ w (SEMSEARCH_PROJECT cfg) = Ok true ∧ exists_ w (SEM_DB_PATH cfg) = Ok false) ∨
  (exists_ w (SEMSEARCH_PROJECT cfg) = Ok true ∧ exists_ w (SEM_DB_PATH cfg) = Ok true ∧
   exists_ w (SEM_FAISS_PATH cfg) = Ok false) ∨
  (exists_ w (SEMSEARCH_PROJECT cfg) = Ok true ∧ exists_ w (SEM_DB_PATH cfg) = Ok true ∧
   exists_ w (SEM_FAISS_PATH cfg) = Ok true ∧ exists_ w (ZOTERO_DB_SRC cfg) = Ok false) ∨
  (_validate_semantic_paths cfg w = Ok None ∧ USE_LOCAL_EMBEDDING cfg = false ∧
   _resolve_api_key w (getenv_api_key w) (Path.of_string (home w)) = Ok "") ∨
  (_validate_semantic_paths cfg w = Ok None ∧ (∃ api_key, api_key_of cfg w = Ok api_key) ∧
   is_Some (import_semsearch w)) →
  ∃ item,
    _build_semantic_items cfg w query st = (Ok [item], st) ∧ Item.is_error item = true.
Proof.
  intros Hwhy.
  assert ((∃ msg, _validate_semantic_paths cfg w = Ok (Some msg)) ∨
          (_validate_semantic_paths cfg w = Ok None ∧
           ((USE_LOCAL_EMBEDDING cfg = false ∧
             _resolve_api_key w (getenv_api_key w) (Path.of_string (home w)) = Ok "") ∨
            ((∃ api_key, api_key_of cfg w = Ok api_key) ∧ is_Some (import_semsearch w)))))
    as [[msg Hmsg]|[Hpaths Hthen]].
  { unfold _validate_semantic_paths.
    destruct Hwhy as [H1|[[H1 H2]|[(H1 & H2 & H3)|[(H1 & H2 & H3 & H4)|[(? & ? & ?)|(? & ? & ?)]]]]];
      [left; rewrite ?H1, ?H2, ?H3, ?H4; by eexists..| |]; right; auto. }
  - unfold _build_semantic_items, bind, lift. rewrite Hmsg. by eexists.
  - unfold _build_semantic_items, bind, lift. rewrite Hpaths.
    destruct Hthen as [[Hremote Hnokey]|[[api_key Hkey] [exc Hexc]]].
    + unfold api_key_of. rewrite Hremote, Hnokey. by eexists.
    + rewrite Hkey, Hexc. destruct (no_api_key api_key); by eexists.
Qed.

Lemma best_by_source_from_blank (raw_results : list hit) (best : Dict.t hit) :
  Forall (fun h => hit_source h = "") raw_results →
  best_by_source_from best raw_results = best.
Proof.
  intros Hall. revert best. induction Hall as [|h raw Hh _ IH]; intros best; simpl; [done|].
  unfold best_by_source_from in IH. rewrite <- (IH best) at 2. f_equal.
  unfold dedup_step. by rewrite Hh.
Qed.

Lemma unique_results_blank (cap : Z) (raw_results : list hit) :
  Forall (fun h => hit_source h = "") raw_results → unique_results cap raw_results = [].
Proof.
  intros Hall. unfold unique_results, deduplicated, best_by_source.
  rewrite best_by_source_from_blank by done. unfold slice_to. simpl.
  by destruct (0 <=? cap)%Z; rewrite take_nil.
Qed.

Lemma unique_results_nonblank (cap : Z) (raw_results : list hit) (h : hit) :
  (0 < cap)%Z → h ∈ raw_results → hit_source h ≠ "" →
  unique_results cap raw_results ≠ [].
Proof.
  intros Hcap Hin Hne Hnil.
  destruct (best_by_source_inv raw_results) as [_ _ Hcov].
  destruct (Hcov h Hin Hne) as [s Hs]. apply get_Some_elem in Hs.
  assert (s ∈ sorted_desc fusion_score (deduplicated raw_results)) as Hsorted.
  { apply sorted_desc_elem. unfold deduplicated, Dict.values.
    by apply (list_elem_of_fmap_2 snd) in Hs. }
  unfold unique_results, slice_to in Hnil.
  destruct (Z.leb_spec 0 cap); [|lia].
  destruct (sorted_desc fusion_score (deduplicated raw_results)) as [|x l];
    [by apply elem_of_nil in Hsorted|].
  destruct (Z.to_nat cap) eqn:Hn; [lia|]. done.
Qed.

(** X9. With a positive result cap, nothing is left after the fusion
    exactly when every hit has an empty or blank path (in particular when
    there is no hit); the search then answers with the single
    informational item that nothing was found, calls neither the joiner nor
    the database, and leaves the state as it was. *)
Theorem nothing_found (cfg : config) (w : world) (query : string)
    (raw_results : list hit) (st : state) :
  search_returns cfg w query raw_results →
  (0 < SEMANTIC_MAX_DOCS cfg)%Z →
  (unique_results (SEMANTIC_MAX_DOCS cfg) raw_results = [] ↔
     Forall (fun h => hit_source h = "") raw_results) ∧
  (Forall (fun h => hit_source h = "") raw_results →
     _build_semantic_items cfg w query st = (Ok [no_results_item], st)).
Proof.
  intros Hsearch Hcap. split; [split|].
  - intros Hnil. apply Forall_forall. intros h Hin.
    destruct (decide (hit_source h = "")) as [|Hne]; [done|].
    by destruct (unique_results_nonblank _ _ h Hcap Hin Hne).
  - apply unique_results_blank.
  - intros Hall. rewrite (build_semantic_items_fuse _ _ _ _ _ Hsearch).
    unfold fuse. by rewrite unique_results_blank.
Qed.

(** ** The items of a hit *)






(** ** The metadata lookup *)

Lemma and_then_Ok {A : Type} (r : outcome A) : and_then r Ok = r.
Proof. by destruct r. Qed.

Lemma store_rows_app (cfg : config) (w : world) (rows : list Row.t) (row : Row.t) :
  ∀ output,
    store_rows cfg w output (rows ++ [row]) =
      and_then (store_rows cfg w output rows) (fun output' => store_row cfg w output' row).
Proof.
  induction rows as [|r rows IH]; intros output; cbn [app store_rows and_then].
  - apply and_then_Ok.
  - destruct (store_row cfg w output r) as [output'|e]; cbn [and_then]; [apply IH|done].
Qed.

(** An entry of the mapping built from the rows is the record of the last
    row with that key, whose path the resolver resolved. *)
Lemma store_rows_lookup (cfg : config) (w : world) (rows : list Row.t) :
  ∀ (output : gmap string Meta.t) (key : string) (record : Meta.t),
    store_rows cfg w ∅ rows = Ok output →
    output !! key = Some record →
    key ≠ "" ∧
    ∃ before row after pdf_path,
      rows = before ++ row :: after ∧
      Str.strip (Row.attachment_key row) = key ∧
      _resolve_pdf_path cfg w (Row.raw_path row) key = Ok pdf_path ∧
      record = meta_of_row row pdf_path ∧
      Forall (fun r => Str.strip (Row.attachment_key r) ≠ key) after.
Proof.
  induction rows as [|row rows IH] using rev_ind; intros output key record.
  { intros [= <-]. by rewrite lookup_empty. }
  rewrite store_rows_app.
  destruct (store_rows cfg w ∅ rows) as [mid|e]; cbn [and_then]; [|done].
  specialize (IH mid key record eq_refl).
  assert (mid !! key = Some record →
          Str.strip (Row.attachment_key row) ≠ key →
          key ≠ "" ∧
          ∃ before r after pdf_path,
            rows ++ [row] = before ++ r :: after ∧
            Str.strip (Row.attachment_key r) = key ∧
            _resolve_pdf_path cfg w (Row.raw_path r) key = Ok pdf_path ∧
            record = meta_of_row r pdf_path ∧
            Forall (fun r => Str.strip (Row.attachment_key r) ≠ key) after) as Hold.
  { intros Hget Hne.
    destruct (IH Hget) as (Hk & before & r & after & pdf_path & -> & Hr & Hres & Hrec & Hafter).
    split; [done|]. exists before, r, (after ++ [row]), pdf_path.
    split; [by rewrite <- app_assoc|]. split; [done|]. split; [done|]. split; [done|].
    apply Forall_app. split; [done|]. by constructor. }
  unfold store_row.
  destruct (Str.nonempty (Str.strip (Row.attachment_key row))) eqn:Hkey.
  - destruct (_resolve_pdf_path cfg w (Row.raw_path row) _) as [pdf_path|e] eqn:Hres;
      cbn [and_then]; [|done].
    intros [= <-].
    destruct (decide (Str.strip (Row.attachment_key row) = key)) as [Heq|Hne].
    + rewrite Heq, lookup_insert_eq. intros [= <-].
      split; [rewrite <- Heq; by apply nonempty_true|].
      exists rows, row, [], pdf_path. rewrite Heq in Hres. by repeat split.
    + rewrite lookup_insert_ne by done. intros Hget. by apply Hold.
  - intros [= <-] Hget. apply Hold; [done|]. intros Heq.
    destruct (IH Hget) as (Hk & _). apply nonempty_false in Hkey. congruence.
Qed.

(** The run of [_load_attachment_meta] for keys of which one at least is
    not empty. *)
Lemma load_attachment_meta_run (cfg : config) (w : world) (attachment_keys : list string)
    (st : state) :
  let keys := List.filter Str.nonempty attachment_keys in
  let tmp := mkstemp w in
  let src := ZOTERO_DB_SRC cfg in
  keys ≠ [] →
  ∃ r evs,
    _load_attachment_meta cfg w attachment_keys st =
      (r, {| files := files st ∖ {[tmp]}; trace := trace st ++ evs |}) ∧
    Forall db_event evs ∧
    (∀ p ks, EvFetchall p ks ∈ evs → p = tmp ∧ ks = keys) ∧
    (∀ m, r = Ok m →
       ∃ rows, sqlite_fetchall w tmp keys = Ok rows ∧
               store_rows cfg w ∅ rows = Ok m).
Proof.
  intros keys tmp src Hkeys. unfold _load_attachment_meta. fold keys.
  destruct keys as [|k ks] eqn:Hk; [done|]. rewrite <- Hk. clear Hk.
  unfold bind at 1. rewrite create_db_snapshot_run. fold tmp src.
  unfold try_finally, query_snapshot, release_snapshot, bind, log, lift, unlink, raise, ret.
  destruct (sqlite_backup w src tmp) as [err|]; [destruct (copy2 w src tmp) as [exc|]|].
  - eexists _, _. rewrite <- !app_assoc. split; [reflexivity|].
    split; [by repeat constructor|]. split; [|done].
    intros p ks' Hin. set_unfold in Hin. naive_solver.
  - cbn [fst snd files trace].
    destruct (sqlite_connect w tmp) as [exc|];
      [|destruct (sqlite_fetchall w tmp keys) as [rows|e] eqn:Hrows];
      cbn [fst snd files trace];
      (eexists _, _; rewrite <- !app_assoc; split;
       [f_equal; f_equal; set_solver|]; split; [by repeat constructor|]; split;
       [intros p ks' Hin; set_unfold in Hin; naive_solver|]);
      try done.
    intros m Hm. by exists rows.
  - cbn [fst snd files trace].
    destruct (sqlite_connect w tmp) as [exc|];
      [|destruct (sqlite_fetchall w tmp keys) as [rows|e] eqn:Hrows];
      cbn [fst snd files trace];
      (eexists _, _; rewrite <- !app_assoc; split;
       [f_equal; f_equal; set_solver|]; split; [by repeat constructor|]; split;
       [intros p ks' Hin; set_unfold in Hin; naive_solver|]);
      try done.
    intros m Hm. by exists rows.
Qed.

Lemma filter_nonempty_no_empty (keys : list string) :
  "" ∉ List.filter Str.nonempty keys.
Proof.
  intros Hin. apply list_elem_of_In, filter_In in Hin as [_ Hne]. done.
Qed.

(** X11. The metadata lookup leaves no temporary file behind: if the file
    [mkstemp] creates did not exist before the call, the temporary files
    after the call are those before it, whether the call returns a mapping
    or raises (failed snapshot, failed connection, failed query, an
    exception of the path resolver while the rows are read). *)
Theorem lookup_leaves_no_file (cfg : config) (w : world) (attachment_keys : list string)
    (st : state) :
  mkstemp w ∉ files st →
  files (_load_attachment_meta cfg w attachment_keys st).2 = files st.
Proof.
  intros Hfresh.
  destruct (List.filter Str.nonempty attachment_keys) as [|k ks] eqn:Hk.
  - unfold _load_attachment_meta. by rewrite Hk.
  - destruct (load_attachment_meta_run cfg w attachment_keys st) as (r & evs & -> & _).
    + by rewrite Hk.
    + cbn [snd files]. set_solver.
Qed.

(** X12. The database is only ever asked for identifiers that are not
    empty: a query made by the lookup goes to the snapshot and carries
    exactly the non-empty identifiers among those requested, in their order
    (and there is one at least). *)
Theorem lookup_queries_nonempty_keys (cfg : config) (w : world)
    (attachment_keys : list string) (st : state) (p : string) (ks : list string) :
  EvFetchall p ks ∈ trace (_load_attachment_meta cfg w attachment_keys st).2 →
  EvFetchall p ks ∈ trace st ∨
  (p = mkstemp w ∧ ks = List.filter Str.nonempty attachment_keys ∧ ks ≠ [] ∧ "" ∉ ks).
Proof.
  destruct (List.filter Str.nonempty attachment_keys) as [|k keys] eqn:Hk.
  - unfold _load_attachment_meta. rewrite Hk. by left.
  - destruct (load_attachment_meta_run cfg w attachment_keys st)
      as (r & evs & -> & _ & Hfetch & _); [by rewrite Hk|].
    cbn [snd trace]. intros Hin. apply elem_of_app in Hin as [Hin|Hin]; [by left|].
    right. destruct (Hfetch _ _ Hin) as [-> ->]. rewrite Hk.
    split; [done|]. split; [done|]. split; [done|].
    rewrite <- Hk. apply filter_nonempty_no_empty.
Qed.

(** X13. Every entry of the mapping the lookup returns comes from a row of
    the query on the snapshot: its key is the trimmed attachment key of the
    row, never empty, its fields are the trimmed fields of the row and its
    PDF path is what the path resolver returned for the row's raw path and
    the key; when several rows share a key the last one counts. Nothing is
    stored under the empty key, so a hit without an identifier is never
    joined. *)
Theorem lookup_entries (cfg : config) (w : world) (attachment_keys : list string)
    (st : state) (meta_by_key : gmap string Meta.t) :
  (_load_attachment_meta cfg w attachment_keys st).1 = Ok meta_by_key →
  meta_by_key !! "" = None ∧
  ∀ key record, meta_by_key !! key = Some record →
    key ≠ "" ∧ trimmed key ∧
    ∃ rows before row after pdf_path,
      sqlite_fetchall w (mkstemp w) (List.filter Str.nonempty attachment_keys) = Ok rows ∧
      rows = before ++ row :: after ∧
      Str.strip (Row.attachment_key row) = key ∧
      _resolve_pdf_path cfg w (Row.raw_path row) key = Ok pdf_path ∧
      record = meta_of_row row pdf_path ∧
      Forall (fun r => Str.strip (Row.attachment_key r) ≠ key) after.
Proof.
  intros Hrun.
  assert (∀ key record, meta_by_key !! key = Some record →
            key ≠ "" ∧ trimmed key ∧
            ∃ rows before row after pdf_path,
              sqlite_fetchall w (mkstemp w) (List.filter Str.nonempty attachment_keys)
                = Ok rows ∧
              rows = before ++ row :: after ∧
              Str.strip (Row.attachment_key row) = key ∧
              _resolve_pdf_path cfg w (Row.raw_path row) key = Ok pdf_path ∧
              record = meta_of_row row pdf_path ∧
              Forall (fun r => Str.strip (Row.attachment_key r) ≠ key) after) as Hentries.
  { destruct (List.filter Str.nonempty attachment_keys) as [|k keys] eqn:Hk.
    - unfold _load_attachment_meta in Hrun. rewrite Hk in Hrun.
      injection Hrun as <-. intros key record Hget. by rewrite lookup_empty in Hget.
    - destruct (load_attachment_meta_run cfg w attachment_keys st)
        as (r & evs & Heq & _ & _ & Hm); [by rewrite Hk|].
      rewrite Heq in Hrun. cbn [fst] in Hrun. destruct (Hm _ Hrun) as (rows & Hrows & Hstore).
      rewrite Hk in Hrows. intros key record Hget.
      destruct (store_rows_lookup _ _ _ _ _ _ Hstore Hget)
        as (Hne & before & row & after & pdf_path & Hsplit & Hkey & Hres & Hrec & Hafter).
      split; [done|]. split; [rewrite <- Hkey; apply strip_trimmed|].
      by exists rows, before, row, after, pdf_path. }
  split; [|exact Hentries].
  destruct (meta_by_key !! "") as [record|] eqn:Hget; [|done].
  by destruct (Hentries _ _ Hget).
Qed.

(** ** The entry point *)

Lemma emitted_app (st : state) (evs : list event) :
  emitted {| files := files st; trace := trace st ++ evs |} =
    emitted st ++ omap (fun e => match e with EvEmit items => Some items | _ => None end) evs.
Proof. unfold emitted. cbn [trace]. apply omap_app. Qed.

Lemma emitted_silent (evs : list event) :
  Forall silent_event evs →
  omap (fun e => match e with EvEmit items => Some items | _ => None end) evs = [].
Proof.
  induction 1 as [|e evs He _ IH]; [done|]. by destruct e.
Qed.

Lemma db_event_silent (evs : list event) : Forall db_event evs → Forall silent_event evs.
Proof. intros H. eapply Forall_impl; [exact H|]. by intros []. Qed.

(** The keyword search writes nothing. *)
Lemma run_fzf_mode_silent (cfg : config) (w : world) (fzf_query : string) (st : state) :
  ∃ evs, (_run_fzf_mode cfg w fzf_query st).2 =
           {| files := files st; trace := trace st ++ evs |} ∧
         Forall silent_event evs ∧
         Forall (fun e => ¬ db_event e) evs ∧ load_meta_calls evs = [] ∧
         (length (helper_runs evs) <= 1)%nat.
Proof.
  rewrite run_fzf_mode_run.
  assert (∀ r : outcome (list Item.t),
            ∃ evs, (r, st).2 = {| files := files st; trace := trace st ++ evs |} ∧
                   Forall silent_event evs ∧ Forall (fun e => ¬ db_event e) evs ∧
                   load_meta_calls evs = [] ∧ (length (helper_runs evs) <= 1)%nat) as Hsame.
  { intros r. exists []. rewrite app_nil_r. split; [by destruct st|].
    split; [constructor|]. split; [constructor|]. split; [done|]. cbn. lia. }
  destruct (exists_ w (FZF_HELPER cfg)) as [[|]|e0]; [|apply Hsame..].
  set (cmd := FZF_HELPER cfg :: _).
  assert (∀ r : outcome (list Item.t),
            ∃ evs, (r, {| files := files st; trace := trace st ++ [EvRunHelper cmd] |}).2 =
                     {| files := files st; trace := trace st ++ evs |} ∧
                   Forall silent_event evs ∧ Forall (fun e => ¬ db_event e) evs ∧
                   load_meta_calls evs = [] ∧ (length (helper_runs evs) <= 1)%nat) as Hran.
  { intros r. exists [EvRunHelper cmd]. split; [done|].
    split; [by apply Forall_singleton|]. split; [|split; [done|cbn; lia]].
    apply Forall_singleton. by intros []. }
  destruct (run_helper w cmd) as [proc|e]; [|apply Hran].
  destruct (negb (returncode proc =? 0)%Z); [apply Hran|].
  destruct (Str.nonempty (Str.strip (stdout proc))); [|apply Hran].
  destruct (json_loads w (Str.strip (stdout proc))) as [[parsed|]|]; apply Hran.
Qed.

(** The semantic search writes nothing either. *)
Lemma build_semantic_items_silent (cfg : config) (w : world) (query : string)
    (st : state) :
  ∃ evs, trace (_build_semantic_items cfg w query st).2 = trace st ++ evs ∧
         Forall silent_event evs.
Proof.
  assert (∀ r : outcome (list Item.t),
            ∃ evs, trace (r, st).2 = trace st ++ evs ∧ Forall silent_event evs) as Hsame.
  { intros r. exists []. by rewrite app_nil_r. }
  unfold _build_semantic_items. unfold bind at 1. unfold lift at 1.
  destruct (_validate_semantic_paths cfg w) as [[msg|]|e]; [apply Hsame| |apply Hsame].
  unfold bind at 1. unfold lift at 1.
  destruct (api_key_of cfg w) as [api_key|e]; [|apply Hsame].
  destruct (no_api_key api_key); [apply Hsame|].
  destruct (import_semsearch w); [apply Hsame|].
  destruct (search w query api_key) as [raw_results|exc].
  - unfold fuse.
    destruct (unique_results (SEMANTIC_MAX_DOCS cfg) raw_results) as [|h unique];
      [apply Hsame|].
    set (keys := attachment_keys (h :: unique)).
    unfold bind at 1. unfold log at 1.
    set (st1 := {| files := files st; trace := trace st ++ [EvLoadMeta keys] |}).
    destruct (load_attachment_meta_trace cfg w keys st1) as (evs & Htrace & Hdb).
    exists (EvLoadMeta keys :: evs). split.
    + unfold bind, lift.
      destruct (_load_attachment_meta cfg w keys st1) as [[meta_by_key|e] st2];
        cbn [snd] in *; rewrite Htrace; cbn [trace st1]; by rewrite <- app_assoc.
    + constructor; [done|]. by apply db_event_silent.
  - unfold search_failed. destruct (USE_LOCAL_EMBEDDING cfg); [|apply Hsame].
    destruct (run_fzf_mode_silent cfg w query st) as (evs & Hst & Hsilent & _).
    exists evs. split; [|done]. unfold bind.
    destruct (_run_fzf_mode cfg w query st) as [[items|e] st']; cbn [snd] in *;
      [destruct (negb _)|]; cbn [snd ret]; by rewrite Hst.
Qed.

(** X14. [main] writes its output exactly once: when it returns, it
    returns 0 and has written one list; when it ends with an exception, it
    has written nothing. *)
Theorem main_writes_once (w : world) (argv : list string) (st : state) :
  match main w argv st with
  | (Ok status, st') => status = 0%Z ∧ ∃ items, emitted st' = emitted st ++ [items]
  | (Raise _, st') => emitted st' = emitted st
  end.
Proof.
  assert (∀ items, emitted {| files := files st; trace := trace st ++ [EvEmit items] |}
                   = emitted st ++ [items]) as Hone.
  { intros items. by rewrite emitted_app. }
  unfold main. destruct (load_config w) as [cfg|[msg|msg|msg|msg|msg]]; try done.
  2: { unfold _emit, bind, log, ret. cbn. split; [done|]. eexists. apply Hone. }
  destruct (negb (Str.nonempty (query_of argv))).
  { unfold _emit, bind, log, ret. cbn. split; [done|]. eexists. apply Hone. }
  destruct (Str.startswith (SEMANTIC_PREFIX cfg) (query_of argv)).
  - destruct (negb (Str.nonempty _)).
    { unfold _emit, bind, log, ret. cbn. split; [done|]. eexists. apply Hone. }
    set (query := Str.strip _).
    destruct (build_semantic_items_silent cfg w query st) as (evs & Htrace & Hsilent).
    unfold bind, _emit, log, ret.
    destruct (_build_semantic_items cfg w query st) as [[items|e] st1]; cbn [snd] in Htrace.
    + split; [done|]. exists items. unfold emitted. cbn [trace].
      rewrite Htrace, !omap_app, (emitted_silent evs Hsilent). by rewrite app_nil_r.
    + unfold emitted. rewrite Htrace, omap_app, (emitted_silent evs Hsilent).
      by rewrite app_nil_r.
  - destruct (run_fzf_mode_silent cfg w (query_of argv) st) as (evs & Hst & Hsilent & _).
    unfold bind, _emit, log, ret.
    destruct (_run_fzf_mode cfg w (query_of argv) st) as [[items|e] st1]; cbn [snd] in Hst;
      subst st1.
    + split; [done|]. exists items. unfold emitted. cbn [trace].
      rewrite !omap_app, (emitted_silent evs Hsilent). by rewrite app_nil_r.
    + unfold emitted. cbn [trace]. rewrite omap_app, (emitted_silent evs Hsilent).
      by rewrite app_nil_r.
Qed.

Lemma join_head (sep : string) (c : ascii) (p : string) (parts : list string) :
  ∃ rest, Str.join sep (String c p :: parts) = String c rest.
Proof. destruct parts; simpl; by eexists. Qed.

Lemma strip_nonempty_of_head (c : ascii) (s : string) :
  Str.is_space c = false → Str.strip (String c s) ≠ "".
Proof.
  intros Hc. unfold Str.strip. rewrite (lstrip_fixed c s Hc).
  by destruct (rstrip_head c s Hc) as [r ->].
Qed.

(** The query is empty exactly when every argument is blank. *)
Lemma query_of_empty (argv : list string) :
  query_of argv = "" ↔ Forall (fun arg => Str.strip arg = "") argv.
Proof.
  unfold query_of. split.
  - intros Hq. induction argv as [|arg argv IH]; [constructor|].
    cbn [map List.filter] in Hq.
    destruct (Str.strip arg) as [|c s] eqn:Harg.
    + constructor; [done|]. apply IH. exact Hq.
    + exfalso. cbn [Str.nonempty] in Hq.
      destruct (join_head " " c s (List.filter Str.nonempty (map Str.strip argv)))
        as [rest Hrest].
      rewrite Hrest in Hq. revert Hq. apply strip_nonempty_of_head.
      by apply strip_head in Harg.
  - intros Hall. induction Hall as [|arg argv Harg _ IH]; [done|].
    cbn [map List.filter]. by rewrite Harg.
Qed.

(** X15. The query [main] builds from its arguments is empty exactly when
    every argument is empty or blank (in particular when there is none).
    [main] then writes a single list holding the hint to enter a query,
    which is not marked as an error, returns 0, and does nothing else: it
    runs neither the helper script nor the search. *)
Theorem main_without_query (w : world) (cfg : config) (argv : list string) (st : state) :
  load_config w = Ok cfg →
  (query_of argv = "" ↔ Forall (fun arg => Str.strip arg = "") argv) ∧
  (Forall (fun arg => Str.strip arg = "") argv →
     main w argv st =
       (Ok 0%Z, {| files := files st; trace := trace st ++ [EvEmit [usage_item cfg]] |})).
Proof.
  intros Hcfg. split; [apply query_of_empty|].
  intros Hall. apply query_of_empty in Hall. unfold main. by rewrite Hcfg, Hall.
Qed.

(** X16. A query that does not start with the semantic prefix is a keyword
    search and stays clear of the Zotero database: [main] creates no
    snapshot, opens or queries no database and does not call the metadata
    joiner; its only effects are at most one run of the helper script and
    the writing of the output. *)
Theorem keyword_search_leaves_database (w : world) (cfg : config) (argv : list string)
    (st : state) :
  load_config w = Ok cfg →
  query_of argv ≠ "" →
  Str.startswith (SEMANTIC_PREFIX cfg) (query_of argv) = false →
  ∃ evs,
    (main w argv st).2 = {| files := files st; trace := trace st ++ evs |} ∧
    Forall (fun e => ¬ db_event e) evs ∧
    load_meta_calls evs = [] ∧
    (length (helper_runs evs) <= 1)%nat.
Proof.
  intros Hcfg Hquery Hprefix. unfold main. rewrite Hcfg.
  apply nonempty_true in Hquery. rewrite Hquery, Hprefix. cbn [negb].
  destruct (run_fzf_mode_silent cfg w (query_of argv) st)
    as (evs & Hst & _ & Hdb & Hcalls & Hruns).
  unfold bind, _emit, log, ret.
  destruct (_run_fzf_mode cfg w (query_of argv) st) as [[items|e] st1];
    cbn [snd] in Hst; subst st1; cbn [snd files trace].
  - exists (evs ++ [EvEmit items]). rewrite <- app_assoc. split; [done|]. split.
    + apply Forall_app. split; [done|]. apply Forall_singleton. by intros [].
    + unfold helper_runs in *. rewrite load_meta_calls_app, Hcalls, omap_app, length_app.
      split; [done|]. cbn. lia.
  - by exists evs.
Qed.

(** ** The scan of the attachment directory *)

(** X17. When the directory of an attachment has to be scanned - the raw
    path is empty, or it is storage-relative and names no file or a file
    that does not exist - and the directory can be listed and holds a PDF
    file, the resolver answers with a PDF file of that directory that none
    of its PDF files precedes in the order of paths. *)
Theorem resolver_scan_least (cfg : config) (w : world) (raw_path attachment_key : string)
    (names : list string) (name : string) :
  let attachment_dir := attachment_dir_of cfg attachment_key in
  let rel := stored_rel (Str.strip raw_path) in
  Str.strip raw_path = "" ∨
  (Str.startswith "storage:" (Str.strip raw_path) = true ∧
   (rel = "" ∨ exists_ w (Path.to_string (Path.join attachment_dir rel)) = Ok false)) →
  is_dir w (Path.to_string attachment_dir) = Ok true →
  iterdir w (Path.to_string attachment_dir) = Ok names →
  Forall (tested w attachment_dir) names →
  name ∈ names →
  is_file w (Path.to_string (Path.join attachment_dir name)) = Ok true →
  lower (Path.suffix (Path.join attachment_dir name)) = ".pdf" →
  ∃ p first,
    _resolve_pdf_path cfg w raw_path attachment_key = Ok (Path.to_string p) ∧
    first ∈ names ∧
    p = Path.join attachment_dir first ∧
    is_file w (Path.to_string p) = Ok true ∧ lower (Path.suffix p) = ".pdf" ∧
    path_ltb (Path.join attachment_dir name) p = false.
Proof.
  intros attachment_dir rel Hscan Hdir Hnames Htested Hname Hfile Hsuffix.
  assert (_resolve_pdf_path cfg w raw_path attachment_key = first_pdf w attachment_dir)
    as ->.
  { unfold _resolve_pdf_path. cbv zeta. fold attachment_dir rel.
    destruct Hscan as [Hraw|[Hstorage [Hrel|Hmissing]]].
    - rewrite Hraw. reflexivity.
    - rewrite Hstorage, Hrel. reflexivity.
    - rewrite Hstorage, Hmissing. by destruct (Str.nonempty rel). }
  pose proof (first_pdf_scans w attachment_dir) as Hs.
  inversion Hs as [ e Hd Heq | Hd Heq | e Hd Hl Heq | before n after e Hd Hl Hall Hr Heq
                  | names0 Hd Hl Hall Hno Heq | names0 first Hd Hl Hall Hin Hpdf Hleast Heq ];
    try congruence.
  - rewrite Hnames in Hl. injection Hl as ->.
    rewrite Forall_forall in Htested. destruct (Htested n) as [b Hb]; [|congruence].
    apply elem_of_app. right. left.
  - rewrite Hnames in Hl. injection Hl as <-. by destruct (Hno name Hname).
  - rewrite Hnames in Hl. injection Hl as <-. destruct Hpdf as [Hpfile Hpsuffix].
    exists (Path.join attachment_dir first), first. repeat split; try done.
    by apply Hleast.
Qed.

(** ** More on deduplication and ranking *)

Lemma insert_desc_perm {A : Type} (key : A -> Q) (x : A) (l : list A) :
  insert_desc key x l ≡ₚ x :: l.
Proof.
  induction l as [|y l IH]; simpl; [done|].
  destruct (score_gt (key y) (key x)); [|done].
  rewrite IH. apply Permutation_swap.
Qed.

Lemma sorted_desc_perm {A : Type} (key : A -> Q) (l : list A) :
  sorted_desc key l ≡ₚ l.
Proof.
  induction l as [|x l IH]; simpl; [done|]. by rewrite insert_desc_perm, IH.
Qed.

Lemma slice_to_all {A : Type} (n : Z) (l : list A) :
  (Z.of_nat (length l) <= n)%Z → slice_to n l = l.
Proof.
  intros Hn. unfold slice_to. destruct (Z.leb_spec 0 n); [|lia].
  apply take_ge. lia.
Qed.

Lemma NoDup_take {A : Type} (n : nat) (l : list A) : NoDup l → NoDup (take n l).
Proof.
  intros Hnd. rewrite <- (take_drop n l) in Hnd. by apply NoDup_app in Hnd as [? _].
Qed.

Lemma deduplicated_keys_NoDup (raw_results : list hit) :
  NoDup (map hit_source (deduplicated raw_results)).
Proof.
  destruct (best_by_source_inv raw_results) as [Hnd Hent _]. unfold deduplicated.
  rewrite keys_of_values; [done|].
  intros k v Hin. by destruct (Hent k v (elem_get _ _ _ Hnd Hin)).
Qed.

Lemma deduplicated_elem (raw_results : list hit) (h : hit) :
  h ∈ deduplicated raw_results → h ∈ raw_results ∧ hit_source h ≠ "".
Proof.
  intros Hin. destruct (best_by_source_inv raw_results) as [Hnd Hent _].
  apply values_elem in Hin as [k Hin].
  destruct (Hent k h (elem_get _ _ _ Hnd Hin)) as (Hk & Hne & l1 & l2 & Hraw & _).
  split; [|congruence]. rewrite Hraw. apply elem_of_app. right. left.
Qed.

(** X18. The results of the fusion are hits of the collaborator with a
    non-blank path, no two of them with the same trimmed path; and when
    the cap is not below the number of distinct paths, the results are
    exactly the hits that survived deduplication, reordered. *)
Theorem fused_results_are_distinct_hits (cap : Z) (raw_results : list hit) :
  (∀ h, h ∈ unique_results cap raw_results → h ∈ raw_results ∧ hit_source h ≠ "") ∧
  NoDup (map hit_source (unique_results cap raw_results)) ∧
  ((Z.of_nat (length (deduplicated raw_results)) <= cap)%Z →
     unique_results cap raw_results ≡ₚ deduplicated raw_results).
Proof.
  split; [|split].
  - intros h Hin. apply deduplicated_elem.
    apply slice_to_elem in Hin. by apply sorted_desc_elem in Hin.
  - unfold unique_results, slice_to.
    assert (NoDup (map hit_source (sorted_desc fusion_score (deduplicated raw_results))))
      as Hnd.
    { rewrite (sorted_desc_perm fusion_score (deduplicated raw_results)).
      apply deduplicated_keys_NoDup. }
    destruct (0 <=? cap)%Z; rewrite <- firstn_map; by apply NoDup_take.
  - intros Hcap. unfold unique_results. rewrite slice_to_all.
    + apply sorted_desc_perm.
    + by rewrite sorted_desc_length.
Qed.

Lemma set_absent {V : Type} (d : Dict.t V) (k : string) (v : V) :
  k ∉ Dict.keys d → Dict.set d k v = d ++ [(k, v)].
Proof.
  induction d as [|[k0 v0] d IH]; simpl; intros Hin; [done|].
  apply not_elem_of_cons in Hin as [Hne Hin].
  destruct (String.eqb_spec k0 k) as [->|_]; [done|]. f_equal. auto.
Qed.

Lemma best_by_source_from_distinct (l : list hit) :
  ∀ best,
    NoDup (Dict.keys best ++ map hit_source l) →
    Forall (fun h => hit_source h ≠ "") l →
    best_by_source_from best l = best ++ map (fun h => (hit_source h, h)) l.
Proof.
  induction l as [|h l IH]; intros best Hnd Hall; simpl; [by rewrite app_nil_r|].
  apply Forall_cons in Hall as [Hh Hall].
  assert (hit_source h ∉ Dict.keys best) as Hfresh.
  { apply NoDup_app in Hnd as (_ & Hdisj & _). intros Hin.
    apply (Hdisj _ Hin). left. }
  unfold best_by_source_from in *. cbn [fold_left].
  assert (dedup_step best h = best ++ [(hit_source h, h)]) as ->.
  { unfold dedup_step. apply nonempty_true in Hh. rewrite Hh.
    apply get_None_keys in Hfresh. rewrite Hfresh.
    by apply set_absent, get_None_keys. }
  rewrite IH; [by rewrite <- app_assoc|  |done].
  unfold Dict.keys in *. rewrite map_app. cbn [map fst].
  rewrite <- app_assoc. exact Hnd.
Qed.

(** X19. Deduplication changes nothing where there is nothing to merge: a
    list of hits with non-blank, pairwise different trimmed paths comes
    back as it is, in the same order. It is therefore idempotent:
    deduplicating the survivors again gives the survivors. *)
Theorem dedup_fixed_point (raw_results l : list hit) :
  (NoDup (map hit_source l) → Forall (fun h => hit_source h ≠ "") l →
     deduplicated l = l) ∧
  deduplicated (deduplicated raw_results) = deduplicated raw_results.
Proof.
  assert (∀ l, NoDup (map hit_source l) → Forall (fun h => hit_source h ≠ "") l →
               deduplicated l = l) as Hfix.
  { intros l' Hnd Hall. unfold deduplicated, best_by_source.
    rewrite best_by_source_from_distinct by done.
    unfold Dict.values. cbn [app]. rewrite map_map. apply map_id. }
  split; [apply Hfix|]. apply Hfix.
  - apply deduplicated_keys_NoDup.
  - apply Forall_forall. intros h Hin. by apply deduplicated_elem in Hin as [_ ?].
Qed.

(** ** The properties at work *)

Lemma load_config_accepts_witness :
  ∃ s, _load_config "/action/config.toml" true (Loaded toml_complete) expand_home = Ok s ∧
       semantic_prefix s = "`" ∧
       zotero_storage_dir s = "/Users/justin/Zotero/storage" ∧
       str_setting [("semantic_prefix", TString "`"); ("top_k", TInteger 20);
                    ("semantic_max_docs", TInteger 8)] "semantic_prefix" (semantic_prefix s).
Proof.
  eexists. split; [vm_compute; reflexivity|]. split; [reflexivity|]. split; [reflexivity|].
  destruct (load_config_accepts "/action/config.toml" true (Loaded toml_complete)
              expand_home _ eq_refl)
    as (_ & data & action & paths & embedding & search & fzf & Hdata & _ & _ & _ & Hs & _
        & _ & _ & _ & _ & _ & _ & _ & _ & Hprefix & _).
  injection Hdata as <-. injection Hs as <-. exact Hprefix.
Defined.

Lemma load_config_rejects_witness :
  ∃ msg, _load_config "/action/config.toml" true (Loaded toml_boolean_top_k) expand_home
           = Raise (ValueError msg).
Proof.
  destruct (load_config_rejects "/action/config.toml" true (Loaded toml_boolean_top_k)
              expand_home (ValueError "設定檔格式錯誤：top_k 必須是整數") eq_refl)
    as [msg Hmsg].
  exists msg. rewrite <- Hmsg. reflexivity.
Defined.

Lemma run_fzf_mode_failed_helper_witness :
  ∃ item,
    (_run_fzf_mode config_local world_both_fail "attention" state_empty).1 = Ok [item] ∧
    Item.subtitle item = "fzf: command not found".
Proof.
  destruct (run_fzf_mode_failed_helper config_local world_both_fail "attention" state_empty
              (Proc 1 "" "fzf: command not found"))
    as (item & Hrun & _ & _ & Hsub); [reflexivity|reflexivity|discriminate|].
  exists item. split; [exact Hrun|]. apply Hsub. discriminate.
Defined.

Lemma build_semantic_items_refuses_witness :
  ∃ item,
    _build_semantic_items config_local (without_semsearch world_fallback_ok) "attention"
      state_empty = (Ok [item], state_empty) ∧
    Item.is_error item = true.
Proof.
  apply (build_semantic_items_refuses config_local (without_semsearch world_fallback_ok)).
  do 5 right. split; [reflexivity|]. split; [by exists None|by eexists].
Defined.

Lemma nothing_found_witness :
  search_returns config_local world_blank_hits "attention"
    [Hit "" "K1" "A" 0.9; Hit "   " "K2" "B" 0.8] ∧
  _build_semantic_items config_local world_blank_hits "attention" state_empty =
    (Ok [no_results_item], state_empty).
Proof.
  assert (search_returns config_local world_blank_hits "attention"
            [Hit "" "K1" "A" 0.9; Hit "   " "K2" "B" 0.8]) as H.
  { split; [reflexivity|]. by exists None. }
  split; [exact H|].
  destruct (nothing_found config_local world_blank_hits "attention" _ state_empty H)
    as [_ Hshown]; [reflexivity|].
  apply Hshown. repeat constructor.
Defined.


Lemma lookup_leaves_no_file_witness :
  files (_load_attachment_meta config_local world_query_fails ["K1"] state_empty).2 = ∅.
Proof.
  apply (lookup_leaves_no_file config_local world_query_fails ["K1"] state_empty).
  vm_compute. intros H. discriminate H.
Defined.

Lemma lookup_queries_nonempty_keys_witness :
  EvFetchall "/tmp/zotero_8f3k2a.sqlite" ["K1"; "K2"]
    ∈ trace (_load_attachment_meta config_local world_pdf_from_sidecar
               [""; "K1"; ""; "K2"] state_empty).2 ∧
  "" ∉ ["K1"; "K2"].
Proof.
  assert (EvFetchall "/tmp/zotero_8f3k2a.sqlite" ["K1"; "K2"]
            ∈ trace (_load_attachment_meta config_local world_pdf_from_sidecar
                       [""; "K1"; ""; "K2"] state_empty).2) as H.
  { vm_compute. do 3 right. left. }
  split; [exact H|].
  destruct (lookup_queries_nonempty_keys _ _ _ _ _ _ H) as [Hin|(_ & _ & _ & Hno)].
  - vm_compute in Hin. by apply elem_of_nil in Hin.
  - exact Hno.
Defined.

Lemma lookup_entries_witness :
  (_load_attachment_meta config_local world_pdf_from_sidecar ["K1"] state_empty).1
    = Ok meta_K1 ∧
  meta_K1 !! "" = None.
Proof.
  assert ((_load_attachment_meta config_local world_pdf_from_sidecar ["K1"] state_empty).1
          = Ok meta_K1) as H by (vm_compute; reflexivity).
  split; [exact H|].
  by destruct (lookup_entries _ _ _ _ _ H) as [Hnone _].
Defined.

Lemma main_without_query_witness :
  main world_fallback_ok [""; "  "] state_empty =
    (Ok 0%Z, {| files := ∅; trace := [EvEmit [usage_item config_local]] |}).
Proof.
  destruct (main_without_query world_fallback_ok config_local [""; "  "] state_empty
              eq_refl) as [_ Hmain].
  apply Hmain. repeat constructor.
Defined.

Lemma keyword_search_leaves_database_witness :
  ∃ evs,
    (main world_empty_array ["attention"] state_empty).2 =
      {| files := ∅; trace := [] ++ evs |} ∧
    Forall (fun e => ¬ db_event e) evs.
Proof.
  destruct (keyword_search_leaves_database world_empty_array config_local ["attention"]
              state_empty eq_refl) as (evs & Hst & Hdb & _).
  - discriminate.
  - reflexivity.
  - by exists evs.
Defined.

Lemma resolver_scan_least_witness :
  ∃ p,
    _resolve_pdf_path config_local
      (with_attachment_files world_fallback_ok ["notes.txt"; "b.pdf"; "a.PDF"])
      "storage:paper.pdf" "K1" = Ok (Path.to_string p) ∧
    path_ltb (Path.of_string "/z/storage/K1/b.pdf") p = false.
Proof.
  destruct (resolver_scan_least config_local
              (with_attachment_files world_fallback_ok ["notes.txt"; "b.pdf"; "a.PDF"])
              "storage:paper.pdf" "K1" ["notes.txt"; "b.pdf"; "a.PDF"] "b.pdf")
    as (p & first & Hres & _ & _ & _ & _ & Hleast).
  - right. split; [reflexivity|]. right. reflexivity.
  - reflexivity.
  - reflexivity.
  - repeat constructor; by exists true.
  - right. left.
  - reflexivity.
  - reflexivity.
  - exists p. split; [exact Hres|exact Hleast].
Defined.
